(** * Meta-agent decision engine of the self-healing cloud: a shallow embedding

    The Python sources embedded here are
    - [ai-engine/llm-reasoning/safety_layer.py]      ([SafetyLayer])
    - [ai-engine/meta-agent/decision_router.py]      ([DecisionRouter])
    - [ai-engine/meta-agent/confidence_estimator.py] ([ConfidenceEstimator])
    - [ai-engine/meta-agent/memory.py]               ([MetaAgentMemory])
    - [ai-engine/meta-agent/orchestrator.py]         ([MetaAgentOrchestrator])

    Modelling conventions.
    - Python [str] is [string]; [str.lower] is ASCII lower-casing and
      [needle in hay] on strings is the substring test [contains].
    - Python [float] values (confidences, risk scores, CPU figures) are
      rationals [Q]; Python [int] values are [Z].
    - A [dict] whose iteration order matters (every dict of this code is
      either printed, merged or sorted in insertion order) is an association
      list kept in insertion order: assignment to an existing key updates it
      in place, a new key is appended, exactly as CPython dicts behave.
    - A raised exception is the [Raise] branch of the [result] monad.
    - Clock readings ([datetime.now()]) and the random/hashed part of the
      decision embedding are inputs of the model. *)

From Stdlib Require Import String Ascii List ZArith QArith Bool Lia.
From Stdlib Require Import Permutation Sorted DecimalString.
Import ListNotations.

Open Scope string_scope.
Open Scope list_scope.

(** ** Python values, strings and dictionaries *)
Module Py.

(** [str.lower] on ASCII characters. *)
Definition lower_char (c : ascii) : ascii :=
  let n := nat_of_ascii c in
  if (65 <=? n)%nat && (n <=? 90)%nat then ascii_of_nat (n + 32) else c.

Fixpoint lower (s : string) : string :=
  match s with
  | EmptyString => EmptyString
  | String c t => String (lower_char c) (lower t)
  end.

(** [needle in hay] for two strings. *)
Fixpoint contains (needle hay : string) : bool :=
  if String.prefix needle hay then true
  else match hay with
       | EmptyString => false
       | String _ t => contains needle t
       end.

(** [x in xs] for a list of strings. *)
Definition mem (x : string) (xs : list string) : bool :=
  existsb (String.eqb x) xs.

(** [str(z)] of an [int]. *)
Definition z_str (z : Z) : string := NilZero.string_of_int (Z.to_int z).

(** An f-string: the concatenation of its pieces. *)
Definition cat (l : list string) : string := String.concat EmptyString l.

(** The scalar values the dictionaries of this code hold. *)
Inductive pval := PInt (z : Z) | PStr (s : string).

Definition pval_eqb (a b : pval) : bool :=
  match a, b with
  | PInt x, PInt y => Z.eqb x y
  | PStr x, PStr y => String.eqb x y
  | _, _ => false
  end.

(** [str(v)] / f-string rendering of a value. *)
Definition pval_str (v : pval) : string :=
  match v with PInt z => z_str z | PStr s => s end.

(** Truthiness of a value ([if v:]). *)
Definition truthy (v : pval) : bool :=
  match v with PInt z => negb (Z.eqb z 0) | PStr s => negb (String.eqb s EmptyString) end.

(** [d.get(k)] on an insertion-ordered dict. *)
Fixpoint dget {V} (k : string) (d : list (string * V)) : option V :=
  match d with
  | [] => None
  | (k', v) :: t => if String.eqb k k' then Some v else dget k t
  end.

(** [d[k] = v]: an existing key keeps its position, a new key is appended. *)
Fixpoint dset {V} (k : string) (v : V) (d : list (string * V)) : list (string * V) :=
  match d with
  | [] => [(k, v)]
  | (k', v') :: t => if String.eqb k k' then (k', v) :: t else (k', v') :: dset k v t
  end.

(** [{**a, **b}]: the entries of [b] assigned, in order, into a copy of [a]. *)
Definition dmerge {V} (a b : list (string * V)) : list (string * V) :=
  fold_left (fun acc kv => dset (fst kv) (snd kv) acc) b a.

Definition pdict := list (string * pval).

(** Python's two-argument [min] and [max] on floats: the first argument is
    kept unless the second compares strictly smaller (resp. greater). *)
Definition qltb (a b : Q) : bool := negb (Qle_bool b a).
Definition py_min (a b : Q) : Q := if qltb b a then b else a.
Definition py_max (a b : Q) : Q := if qltb a b then b else a.

(** Exceptions the embedded code can raise. *)
Inductive exn := TypeError | AttributeError | KeyError | ValueError.

Inductive result (A : Type) := Ok (a : A) | Raise (e : exn).
Arguments Ok {A} a.
Arguments Raise {A} e.

Definition bind {A B} (m : result A) (k : A -> result B) : result B :=
  match m with Ok a => k a | Raise e => Raise e end.

End Py.

Import Py.

Notation "'let*' x ':=' m 'in' k" := (bind m (fun x => k))
  (at level 200, x name, m at level 100, k at level 200).

(** ** The records of the decision pipeline *)

(** A recommendation dict [{"action", "confidence", "source", "reasoning"}].
    The action is a value: the RL advisor's action need not be a string. The
    free-text ["reasoning"] is read by no later step and is not modelled. *)
Record recommendation := mk_rec {
  r_action : pval;
  r_confidence : Q;
  r_source : string }.

(** A decision dict; a field is [None] when its key is absent. The free-text
    fields [reasoning] and [explanation] (redacted and truncated by
    [_sanitize_text]) and [confidence_details] play no part in any check and
    are not modelled. *)
Record decision := mk_decision {
  d_action : option pval;
  d_action_params : option pdict;
  d_confidence : option Q;
  d_recommendations : option (list recommendation);
  d_risk_score : option Q;
  d_target_agent : option string;
  d_safety_corrected : option bool;
  d_safety_warning : option string;
  d_safety_checked : option bool;
  d_is_safe : option bool }.

Definition empty_decision : decision :=
  mk_decision None None None None None None None None None None.

(** [decision[key] = value] for each modelled key. *)
Definition set_action (d : decision) v := {|
  d_action := v; d_action_params := d_action_params d; d_confidence := d_confidence d;
  d_recommendations := d_recommendations d; d_risk_score := d_risk_score d;
  d_target_agent := d_target_agent d; d_safety_corrected := d_safety_corrected d;
  d_safety_warning := d_safety_warning d; d_safety_checked := d_safety_checked d;
  d_is_safe := d_is_safe d |}.
Definition set_params (d : decision) v := {|
  d_action := d_action d; d_action_params := v; d_confidence := d_confidence d;
  d_recommendations := d_recommendations d; d_risk_score := d_risk_score d;
  d_target_agent := d_target_agent d; d_safety_corrected := d_safety_corrected d;
  d_safety_warning := d_safety_warning d; d_safety_checked := d_safety_checked d;
  d_is_safe := d_is_safe d |}.
Definition set_confidence (d : decision) v := {|
  d_action := d_action d; d_action_params := d_action_params d; d_confidence := v;
  d_recommendations := d_recommendations d; d_risk_score := d_risk_score d;
  d_target_agent := d_target_agent d; d_safety_corrected := d_safety_corrected d;
  d_safety_warning := d_safety_warning d; d_safety_checked := d_safety_checked d;
  d_is_safe := d_is_safe d |}.
Definition set_corrected (d : decision) v := {|
  d_action := d_action d; d_action_params := d_action_params d; d_confidence := d_confidence d;
  d_recommendations := d_recommendations d; d_risk_score := d_risk_score d;
  d_target_agent := d_target_agent d; d_safety_corrected := v;
  d_safety_warning := d_safety_warning d; d_safety_checked := d_safety_checked d;
  d_is_safe := d_is_safe d |}.
Definition set_warning (d : decision) v := {|
  d_action := d_action d; d_action_params := d_action_params d; d_confidence := d_confidence d;
  d_recommendations := d_recommendations d; d_risk_score := d_risk_score d;
  d_target_agent := d_target_agent d; d_safety_corrected := d_safety_corrected d;
  d_safety_warning := v; d_safety_checked := d_safety_checked d;
  d_is_safe := d_is_safe d |}.
Definition set_checked (d : decision) v := {|
  d_action := d_action d; d_action_params := d_action_params d; d_confidence := d_confidence d;
  d_recommendations := d_recommendations d; d_risk_score := d_risk_score d;
  d_target_agent := d_target_agent d; d_safety_corrected := d_safety_corrected d;
  d_safety_warning := d_safety_warning d; d_safety_checked := v;
  d_is_safe := d_is_safe d |}.
Definition set_is_safe (d : decision) v := {|
  d_action := d_action d; d_action_params := d_action_params d; d_confidence := d_confidence d;
  d_recommendations := d_recommendations d; d_risk_score := d_risk_score d;
  d_target_agent := d_target_agent d; d_safety_corrected := d_safety_corrected d;
  d_safety_warning := d_safety_warning d; d_safety_checked := d_safety_checked d;
  d_is_safe := v |}.

(** The event dict, reduced to the keys the pipeline reads: ["type"],
    ["severity"], ["failure_count"] and ["current_replicas"] (the event is
    also the [context] of the safety checks). *)
Record event := mk_event {
  ev_type : option string;
  ev_severity : option string;
  ev_failure_count : option Z;
  ev_current_replicas : option Z }.

(** ** [SafetyLayer] *)

Record safety_layer := mk_safety_layer {
  allowed_actions : list string;
  max_replicas : Z;
  min_replicas : Z;
  protected_resources : list string;
  dangerous_actions : list string }.

Definition default_allowed_actions : list string :=
  ["restart_pod"; "rollback_deployment"; "replace_pod";
   "rebuild_deployment"; "trigger_heal"; "trigger_code_fix";
   "scale_up"; "scale_down"; "do_nothing"].

Definition default_protected_resources : list string :=
  ["database"; "storage"; "backup"; "critical-service"].

Definition default_dangerous_actions : list string :=
  ["delete_service"; "delete_deployment"; "delete_namespace"; "delete_pod";
   "drop_database"; "format_disk"; "shutdown_all"].

(** [x or default] for an optional list argument. *)
Definition or_default (x : option (list string)) (dflt : list string) : list string :=
  match x with Some ((_ :: _) as l) => l | _ => dflt end.

(** [SafetyLayer.__init__]. *)
Definition SafetyLayer (allowed : option (list string)) (max_r min_r : Z)
    (protected : option (list string)) : safety_layer :=
  mk_safety_layer (or_default allowed default_allowed_actions) max_r min_r
    (or_default protected default_protected_resources) default_dangerous_actions.

(** [SafetyLayer()]. *)
Definition default_safety_layer : safety_layer := SafetyLayer None 20 1 None.

(** [_is_deletion_action]. *)
Definition is_deletion_action (action : string) : bool :=
  existsb (fun kw => contains kw (lower action))
    ["delete"; "remove"; "drop"; "destroy"; "kill"].

Section Safety.

(** [self._contains_unsafe_patterns(str(action_params))]: the regular
    expressions of [unsafe_patterns] searched in the printed parameter dict.
    It is left as a parameter: every result below holds whatever it answers. *)
Variable contains_unsafe_patterns : pdict -> bool.

Variable sl : safety_layer.

(** [any(protected in name for protected in self.protected_resources)]. *)
Definition any_protected (name : string) : bool :=
  existsb (fun p => contains p name) (protected_resources sl).

(** [validate_action]: (is_safe, error_message, corrected_action). *)
Definition validate_action (action : pval) (action_params : option pdict)
    : result (bool * option string * pdict) :=
  let params := match action_params with Some p => p | None => [] end in
  let corrected := dmerge [("action", action)] params in
  let not_allowed :=
    Ok (false, Some (cat ["Action '"; pval_str action; "' is not in allowed actions list"]),
        corrected) in
  match action with
  | PInt _ => not_allowed
  | PStr a =>
    if negb (mem a (allowed_actions sl)) then not_allowed else
    let* blocked :=
      if is_deletion_action a then
        let* rn := match dget "resource_name" params with
                   | None => Ok EmptyString
                   | Some (PStr r) => Ok (lower r)
                   | Some (PInt _) => Raise AttributeError
                   end in
        Ok (if any_protected rn then Some rn else None)
      else Ok None in
    match blocked with
    | Some rn => Ok (false, Some (cat ["Cannot delete protected resource: "; rn]), corrected)
    | None =>
      let* scaled :=
        if contains "scale" a then
          let target := match dget "target_replicas" params with
                        | Some v => v
                        | None => match dget "replicas" params with
                                  | Some v => v
                                  | None => PInt 0
                                  end
                        end in
          match target with
          | PStr _ => Raise TypeError
          | PInt t =>
            if (max_replicas sl <? t)%Z then
              Ok (Some (false,
                   Some (cat ["Target replicas "; z_str t; " exceeds maximum ";
                              z_str (max_replicas sl)]),
                   dset "target_replicas" (PInt (max_replicas sl)) corrected))
            else if (t <? min_replicas sl)%Z then
              Ok (Some (false,
                   Some (cat ["Target replicas "; z_str t; " below minimum ";
                              z_str (min_replicas sl)]),
                   dset "target_replicas" (PInt (min_replicas sl)) corrected))
            else Ok None
          end
        else Ok None in
      match scaled with
      | Some r => Ok r
      | None =>
        if contains_unsafe_patterns params then
          Ok (false, Some "Action parameters contain unsafe instructions", corrected)
        else if mem a (dangerous_actions sl) then
          Ok (false, Some (cat ["Dangerous action '"; a; "' is not allowed"]), corrected)
        else Ok (true, None, corrected)
      end
    end
  end.

(** [max(0.0, min(1.0, float(confidence)))]. *)
Definition clamp01 (c : Q) : Q := py_max 0 (py_min 1 c).

(** [sanitize_output] (on a shallow copy of the decision). *)
Definition sanitize_output (output : decision) : result decision :=
  let action := match d_action output with Some a => a | None => PStr EmptyString end in
  let* v := validate_action action (d_action_params output) in
  let '(is_safe, error_msg, corrected) := v in
  let sanitized :=
    if is_safe then set_corrected output (Some false)
    else
      let new_action := match dget "action" corrected with
                        | Some a => a
                        | None => PStr "do_nothing"
                        end in
      set_warning
        (set_corrected (set_params (set_action output (Some new_action)) (Some corrected))
           (Some true))
        error_msg in
  let confidence := match d_confidence output with Some c => c | None => 0.5%Q end in
  Ok (set_confidence sanitized (Some (clamp01 confidence))).

(** [safe_decision["action_params"]["target_replicas"] = v] together with
    the flag and the warning; a missing ["action_params"] key raises. *)
Definition clamp_target (v : Z) (msg : string) (s : decision) : result decision :=
  match d_action_params s with
  | None => Raise KeyError
  | Some p =>
    Ok (set_warning
          (set_corrected (set_params s (Some (dset "target_replicas" (PInt v) p))) (Some true))
          (Some msg))
  end.

(** [apply_safety_checks]. *)
Definition apply_safety_checks (d : decision) (context : event) : result decision :=
  let* s := sanitize_output d in
  let action := match d_action s with Some a => a | None => PStr EmptyString end in
  let action_params := match d_action_params s with Some p => p | None => [] end in
  match action with
  | PInt _ => Raise TypeError            (* ["scale" in action] *)
  | PStr a =>
    let* s2 :=
      if contains "scale" a then
        let current := match ev_current_replicas context with Some c => c | None => 1%Z end in
        let target := match dget "target_replicas" action_params with
                      | Some v => v
                      | None => PInt current
                      end in
        match target with
        | PStr _ => Raise TypeError
        | PInt t =>
          let* s1 :=
            if (max_replicas sl <? t)%Z then
              clamp_target (max_replicas sl)
                (cat ["Scaling limited to maximum "; z_str (max_replicas sl); " replicas"]) s
            else Ok s in
          if (t <? min_replicas sl)%Z then
            clamp_target (min_replicas sl)
              (cat ["Scaling limited to minimum "; z_str (min_replicas sl); " replicas"]) s1
          else Ok s1
        end
      else Ok s in
    (* the local [action_params] is the dict object held by the decision *)
    let params2 := match d_action_params s2 with Some p => p | None => [] end in
    let resource_name := match dget "resource_name" params2 with
                         | Some v => v
                         | None => PStr EmptyString
                         end in
    let* s3 :=
      if truthy resource_name then
        match resource_name with
        | PInt _ => Raise AttributeError
        | PStr r =>
          if any_protected (lower r) && is_deletion_action a then
            Ok (set_warning
                  (set_corrected (set_action s2 (Some (PStr "do_nothing"))) (Some true))
                  (Some (cat ["Cannot delete protected resource: "; r])))
          else Ok s2
        end
      else Ok s2 in
    let corrected := match d_safety_corrected s3 with Some b => b | None => false end in
    Ok (set_is_safe (set_checked s3 (Some true)) (Some (negb corrected)))
  end.

End Safety.

(** ** [DecisionRouter] *)

Module EventType.
Inductive t := ERROR | CRASH | OVERLOAD | ANOMALY | ATTACK | UNKNOWN.
Definition value (e : t) : string :=
  match e with
  | ERROR => "error" | CRASH => "crash" | OVERLOAD => "overload"
  | ANOMALY => "anomaly" | ATTACK => "attack" | UNKNOWN => "unknown"
  end.
End EventType.

Module AgentType.
Inductive t := CODE_AGENT | SELF_HEALING_AGENT | SCALING_AGENT | MONITORING_AGENT
             | SECURITY_AGENT | UNKNOWN.
Definition value (a : t) : string :=
  match a with
  | CODE_AGENT => "code_agent" | SELF_HEALING_AGENT => "self_healing_agent"
  | SCALING_AGENT => "scaling_agent" | MONITORING_AGENT => "monitoring_agent"
  | SECURITY_AGENT => "security_agent" | UNKNOWN => "unknown"
  end.
End AgentType.

(** [_initialize_routing_map]. *)
Definition routing_map (e : EventType.t) : option AgentType.t :=
  match e with
  | EventType.ERROR => Some AgentType.CODE_AGENT
  | EventType.CRASH => Some AgentType.SELF_HEALING_AGENT
  | EventType.OVERLOAD => Some AgentType.SCALING_AGENT
  | EventType.ANOMALY => Some AgentType.MONITORING_AGENT
  | EventType.ATTACK => Some AgentType.SECURITY_AGENT
  | EventType.UNKNOWN => None
  end.

(** [classify_event]. *)
Definition classify_event (ev : event) : EventType.t :=
  let s := lower (match ev_type ev with Some t => t | None => EmptyString end) in
  if contains "error" s || contains "code_error" s then EventType.ERROR
  else if contains "crash" s || contains "pod_crash" s || contains "failure" s
  then EventType.CRASH
  else if contains "overload" s || contains "high_load" s
          || contains "resource_exhaustion" s then EventType.OVERLOAD
  else if contains "anomaly" s || contains "unusual" s then EventType.ANOMALY
  else if contains "attack" s || contains "security" s || contains "breach" s
  then EventType.ATTACK
  else EventType.UNKNOWN.

Record routing := mk_routing {
  rt_event_type : string;
  rt_target_agent : string;
  rt_routing_confidence : Q }.

(** [route_event]. *)
Definition route_event (ev : event) : routing :=
  let et := classify_event ev in
  let target :=
    match et with
    | EventType.UNKNOWN => AgentType.SELF_HEALING_AGENT
    | _ => match routing_map et with Some a => a | None => AgentType.SELF_HEALING_AGENT end
    end in
  mk_routing (EventType.value et) (AgentType.value target)
    (match et with EventType.UNKNOWN => 1#2 | _ => 1 end).

(** ** What the advisors report ([_gather_intelligence])

    The advisors are external; their answers are inputs of the model. *)

(** [intelligence["llm"]]: the reasoning engine's result dict. *)
Record llm_result := mk_llm {
  llm_action : option pval;
  llm_confidence : option Q }.

(** [intelligence["transformers"]["forecast"]]: numpy arrays. *)
Record forecast := mk_forecast {
  cpu_forecast : option (list Q);
  error_burst : option (list Q) }.

Record intelligence := mk_intel {
  i_rl : option (pval * Q);            (* {"action", "confidence", "source": "rl_agent"} *)
  i_llm : option llm_result;
  i_gnn : option (list (string * Q));  (* ["failure_propagation"]: node -> probability *)
  i_transformers : option forecast }.

(** [len(intelligence)]. *)
Definition intel_len (i : intelligence) : nat :=
  (if i_rl i then 1 else 0) + (if i_llm i then 1 else 0)
  + (if i_gnn i then 1 else 0) + (if i_transformers i then 1 else 0).

(** [bool(a)] of a numpy array: ambiguous (ValueError) beyond one element. *)
Definition np_truthy (a : list Q) : result bool :=
  match a with
  | [] => Ok false
  | [x] => Ok (negb (Qeq_bool x 0))
  | _ => Raise ValueError
  end.

(** [np.mean] of a non-empty array, and a plain sum. *)
Definition qsum (xs : list Q) : Q := fold_left Qplus xs 0.
Definition mean (xs : list Q) : Q := qsum xs / inject_Z (Z.of_nat (length xs)).

(** [max(xs, key=key)]: the first element whose key no later element
    exceeds strictly. *)
Definition py_max_by {A} (key : A -> Q) (x : A) (xs : list A) : A :=
  fold_left (fun cur y => if qltb (key cur) (key y) then y else cur) xs x.

(** ** [_coordinate_recovery_plan] *)

Record plan_step := mk_step {
  step_no : Z;
  step_action : string;
  step_duration : Z }.

Record recovery_plan := mk_plan {
  steps : list plan_step;
  estimated_duration : Z;
  rollback_plan : option (string * Z) }.

(** The [intelligence] argument is not read by the source. *)
Definition coordinate_recovery_plan (d : decision) (_ : intelligence) : recovery_plan :=
  let action := match d_action d with Some a => a | None => PStr "no_action" end in
  if pval_eqb action (PStr "restart_pod") then
    mk_plan [mk_step 1 "identify_failed_pod" 5; mk_step 2 "restart_pod" 30;
             mk_step 3 "verify_health" 60] 95 None
  else if pval_eqb action (PStr "scale_up") then
    mk_plan [mk_step 1 "calculate_target_replicas" 5; mk_step 2 "scale_deployment" 60;
             mk_step 3 "verify_scaling" 120] 185 None
  else if pval_eqb action (PStr "rebuild_deployment") then
    mk_plan [mk_step 1 "backup_current_state" 30; mk_step 2 "rebuild_deployment" 180;
             mk_step 3 "verify_deployment" 120; mk_step 4 "rollback_if_needed" 60] 390
            (Some ("restore_backup", 120%Z))
  else
    mk_plan [mk_step 1 "monitor_situation" 60] 60 None.

(** ** [ConfidenceEstimator] *)

(** A [component_history] entry. *)
Record component_record := mk_component_record {
  successes : Z;
  failures : Z;
  count : Z;
  total_confidence : Q }.

Definition ledger := list (string * component_record).

(** [_get_historical_accuracy]. *)
Definition get_historical_accuracy (component_history : ledger)
    (recommendations : list recommendation) : Q :=
  match recommendations with
  | [] => 1#2
  | _ =>
    let accuracies :=
      flat_map (fun rec =>
        match dget (r_source rec) component_history with
        | Some hist =>
          if (0 <? count hist)%Z then [inject_Z (successes hist) / inject_Z (count hist)]
          else []
        | None => []
        end) recommendations in
    match accuracies with
    | [] => 1#2
    | _ => mean accuracies
    end
  end.

(** [update_component_performance]. *)
Definition update_component_performance (component_history : ledger)
    (component : string) (success : bool) (confidence : Q) : ledger :=
  let hist := match dget component component_history with
              | Some h => h
              | None => mk_component_record 0 0 0 0
              end in
  let hist' := mk_component_record
                 (if success then successes hist + 1 else successes hist)%Z
                 (if success then failures hist else failures hist + 1)%Z
                 (count hist + 1)%Z (total_confidence hist + confidence) in
  dset component hist' component_history.

(** [_calculate_weighted_confidence]. *)
Definition calculate_weighted_confidence (recommendations : list recommendation)
    (component_weights : option (list (string * Q))) : Q :=
  match recommendations with
  | [] => 0
  | _ =>
    let simple := mean (map r_confidence recommendations) in
    match component_weights with
    | Some ((_ :: _) as w) =>
      let weight r := match dget (r_source r) w with Some x => x | None => 1 end in
      let weighted_sum := qsum (map (fun r => r_confidence r * weight r) recommendations) in
      let total_weight := qsum (map weight recommendations) in
      if qltb 0 total_weight then weighted_sum / total_weight else simple
    | _ => simple
    end
  end.

(** The [details] dict of [estimate_confidence]. *)
Record confidence_factors := mk_factors {
  agreement_score : Q;
  historical_accuracy : Q;
  complexity_factor : Q;
  risk_factor : Q;
  weighted_confidence : Q;
  final_confidence : Q }.

Inductive confidence_details :=
  | DReason (reason : string)
  | DFactors (f : confidence_factors).

Section Estimator.

(** The square root inside [np.std]; left as a parameter, so the results
    below hold for every choice of it. *)
Variable sqrt : Q -> Q.

(** [_calculate_model_agreement]. *)
Definition calculate_model_agreement (recommendations : list recommendation) : Q :=
  if (length recommendations <=? 1)%nat then 1 else
  let actions := map r_action recommendations in
  let most_common_count :=
    fold_left Nat.max (map (fun a => length (filter (pval_eqb a) actions)) actions) 0%nat in
  let agreement := inject_Z (Z.of_nat most_common_count) / inject_Z (Z.of_nat (length actions)) in
  let confidences := map r_confidence recommendations in
  match confidences with
  | [] => agreement
  | _ =>
    let m := mean confidences in
    let confidence_std := sqrt (mean (map (fun c => (c - m) * (c - m)) confidences)) in
    let alignment_factor := 1 - py_min 1 confidence_std in
    (agreement + alignment_factor) / 2
  end.

(** [estimate_confidence]. *)
Definition estimate_confidence (component_history : ledger)
    (recommendations : list recommendation) (situation_complexity risk_score : Q)
    (component_weights : option (list (string * Q))) : Q * confidence_details :=
  match recommendations with
  | [] => (0, DReason "No recommendations")
  | _ =>
    let agreement := calculate_model_agreement recommendations in
    let historical := get_historical_accuracy component_history recommendations in
    let complexity_f := 1 - situation_complexity in
    let risk_f := 1 - risk_score in
    let weighted := calculate_weighted_confidence recommendations component_weights in
    let confidence := agreement * (3#10) + historical * (3#10) + complexity_f * (2#10)
                      + risk_f * (1#10) + weighted * (1#10) in
    let confidence := py_max 0 (py_min 1 confidence) in
    (confidence, DFactors (mk_factors agreement historical complexity_f risk_f weighted confidence))
  end.

End Estimator.

(** ** [MetaAgentMemory] *)

(** [deque(maxlen=n).append(x)]: the oldest elements fall out on the left. *)
Definition deque_append {A} (maxlen : nat) (xs : list A) (x : A) : list A :=
  let ys := xs ++ [x] in
  if (maxlen <? length ys)%nat then skipn (length ys - maxlen) ys else ys.

(** [ShortTermMemory]. The ["stored_at"] stamp written into each stored
    event and decision is read by nothing and is not modelled. *)
Record ShortTermMemory := mk_short_term {
  max_events : nat;
  max_decisions : nat;
  recent_events : list event;
  recent_decisions : list decision;
  active_plans : list (string * recovery_plan) }.

(** The metadata stored next to an embedding. *)
Inductive embedding_metadata :=
  | MDecision (d : decision) (context : event)
  | MPattern (m : pdict).

(** [LongTermEmbeddings]. *)
Record LongTermEmbeddings := mk_embeddings {
  embedding_dim : nat;
  decision_embeddings : list (string * list Q);
  pattern_embeddings : list (string * list Q);
  embeddings_metadata : list (string * embedding_metadata) }.

(** An [ArchiveEntry]. The ISO timestamp string is modelled by the clock
    reading it prints: [isoformat()] strings of one clock compare as the
    instants they print. *)
Record archive_entry := mk_entry {
  ae_decision_id : string;
  ae_timestamp : Z;
  ae_decision : decision;
  ae_context : event;
  ae_outcome : option pdict;
  ae_success : option bool }.

(** [DecisionArchive]: [archives] is the dict [decision_id -> entry] in
    insertion order. [max_size] is a size bound, a natural number. *)
Record DecisionArchive := mk_archive {
  max_size : nat;
  archives : list archive_entry;
  patterns : list (string * (Z * pdict)) }.

(** [self.archives[entry.decision_id] = entry]. *)
Fixpoint put_entry (e : archive_entry) (l : list archive_entry) : list archive_entry :=
  match l with
  | [] => [e]
  | h :: t => if String.eqb (ae_decision_id e) (ae_decision_id h) then e :: t
              else h :: put_entry e t
  end.

(** [del self.archives[decision_id]]. *)
Definition del_entry (decision_id : string) (l : list archive_entry) : list archive_entry :=
  filter (fun e => negb (String.eqb (ae_decision_id e) decision_id)) l.

(** [sorted(self.archives.items(), key=timestamp)]: a stable sort, here by
    insertion (an element goes before the elements with an equal key that
    follow it). *)
Fixpoint insert_by_timestamp (e : archive_entry) (l : list archive_entry) : list archive_entry :=
  match l with
  | [] => [e]
  | h :: t => if (ae_timestamp e <=? ae_timestamp h)%Z then e :: h :: t
              else h :: insert_by_timestamp e t
  end.

Fixpoint sort_by_timestamp (l : list archive_entry) : list archive_entry :=
  match l with
  | [] => []
  | h :: t => insert_by_timestamp h (sort_by_timestamp t)
  end.

(** [archive_decision], with [now] the clock reading of the entry. *)
Definition archive_decision (da : DecisionArchive) (decision_id : string) (now : Z)
    (d : decision) (context : event) (outcome : option pdict) (success : option bool)
    : DecisionArchive :=
  let a := put_entry (mk_entry decision_id now d context outcome success) (archives da) in
  let a' :=
    if (max_size da <? length a)%nat then
      let sorted_entries := sort_by_timestamp a in
      fold_left (fun acc e => del_entry (ae_decision_id e) acc)
        (firstn (length a - max_size da) sorted_entries) a
    else a in
  mk_archive (max_size da) a' (patterns da).

Record MetaAgentMemory := mk_memory {
  short_term : ShortTermMemory;
  long_term_embeddings : LongTermEmbeddings;
  decision_archive : DecisionArchive }.

(** [MetaAgentMemory.__init__]. *)
Definition MetaAgentMemory_init (short_term_max_events short_term_max_decisions
    embedding_dim archive_max_size : nat) : MetaAgentMemory :=
  mk_memory (mk_short_term short_term_max_events short_term_max_decisions [] [] [])
    (mk_embeddings embedding_dim [] [] []) (mk_archive archive_max_size [] []).

(** [store_event]. *)
Definition store_event (m : MetaAgentMemory) (ev : event) : MetaAgentMemory :=
  let st := short_term m in
  mk_memory
    (mk_short_term (max_events st) (max_decisions st)
       (deque_append (max_events st) (recent_events st) ev) (recent_decisions st)
       (active_plans st))
    (long_term_embeddings m) (decision_archive m).

(** [store_decision_embedding]: pad with zeros or truncate to the dimension. *)
Definition store_decision_embedding (le : LongTermEmbeddings) (decision_id : string)
    (embedding : list Q) (metadata : embedding_metadata) : LongTermEmbeddings :=
  let dim := embedding_dim le in
  let e := if (length embedding <? dim)%nat
           then embedding ++ repeat 0 (dim - length embedding)
           else firstn dim embedding in
  mk_embeddings dim (dset decision_id e (decision_embeddings le)) (pattern_embeddings le)
    (dset decision_id metadata (embeddings_metadata le)).

(** [store_decision]. [now_id] and [now_ts] are the two clock readings (the
    default id and the archive timestamp); [embedding] is the vector
    [_generate_embedding] returns (a hash of the action and random padding). *)
Definition store_decision (m : MetaAgentMemory) (d : decision) (context : event)
    (decision_id : option string) (now_id now_ts : Z) (embedding : list Q)
    : string * MetaAgentMemory :=
  let did := match decision_id with
             | Some i => i
             | None => cat ["decision_"; z_str (Z.of_nat (length (archives (decision_archive m))));
                            "_"; z_str now_id]
             end in
  let st := short_term m in
  let st' := mk_short_term (max_events st) (max_decisions st) (recent_events st)
               (deque_append (max_decisions st) (recent_decisions st) d) (active_plans st) in
  let le' := store_decision_embedding (long_term_embeddings m) did embedding (MDecision d context) in
  let da' := archive_decision (decision_archive m) did now_ts d context None None in
  (did, mk_memory st' le' da').

(** [update_decision_outcome]. *)
Definition update_decision_outcome (m : MetaAgentMemory) (decision_id : string)
    (outcome : pdict) (success : bool) : MetaAgentMemory :=
  let da := decision_archive m in
  if existsb (fun e => String.eqb (ae_decision_id e) decision_id) (archives da) then
    mk_memory (short_term m) (long_term_embeddings m)
      (mk_archive (max_size da)
         (map (fun e => if String.eqb (ae_decision_id e) decision_id
                        then mk_entry (ae_decision_id e) (ae_timestamp e) (ae_decision e)
                               (ae_context e) (Some outcome) (Some success)
                        else e) (archives da))
         (patterns da))
  else m.

(** ** [MetaAgentOrchestrator] *)

Definition dflt {A} (d : A) (o : option A) : A := match o with Some x => x | None => d end.

(** The collection loop of [_choose_best_action], in its order: RL, LLM,
    GNN, forecaster. *)
Definition collect_recommendations (intel : intelligence) : result (list recommendation) :=
  let rl := match i_rl intel with
            | Some (a, c) => [mk_rec a c "rl_agent"]
            | None => []
            end in
  let llm := match i_llm intel with
             | Some l => [mk_rec (dflt (PStr "no_action") (llm_action l))
                                 (dflt (1#2) (llm_confidence l)) "llm_reasoning"]
             | None => []
             end in
  let gnn := match i_gnn intel with
             | Some (p :: ps) =>
               let max_risk_node := py_max_by snd p ps in
               [mk_rec (PStr "trigger_heal") (snd max_risk_node) "gnn"]
             | _ => []
             end in
  let* tr := match i_transformers intel with
             | Some f =>
               match cpu_forecast f with
               | Some cf =>
                 let* present := np_truthy cf in
                 if present then
                   let avg_cpu := mean cf in
                   if qltb 80 avg_cpu
                   then Ok [mk_rec (PStr "scale_up") (py_min 1 (avg_cpu / 100)) "transformers"]
                   else Ok []
                 else Ok []
               | None => Ok []
               end
             | None => Ok []
             end in
  Ok (rl ++ llm ++ gnn ++ tr).

(** [_calculate_risk_score]. *)
Definition calculate_risk_score (ev : event) (intel : intelligence) : result Q :=
  let severity := dflt "medium" (ev_severity ev) in
  let sev := if String.eqb severity "low" then 2#10
             else if String.eqb severity "medium" then 5#10
             else if String.eqb severity "high" then 8#10
             else if String.eqb severity "critical" then 1
             else 5#10 in
  let risk := 0 + sev * (4#10) in
  let risk := match i_gnn intel with
              | Some ((_ :: _) as fp) => risk + mean (map snd fp) * (3#10)
              | _ => risk
              end in
  let* risk := match i_transformers intel with
               | Some f =>
                 match error_burst f with
                 | Some eb =>
                   let* present := np_truthy eb in
                   if present && existsb (fun x => qltb (1#2) x) eb
                   then Ok (risk + (3#10)) else Ok risk
                 | None => Ok risk
                 end
               | None => Ok risk
               end in
  Ok (py_min 1 risk).

(** [_assess_complexity]. *)
Definition assess_complexity (ev : event) (intel : intelligence) : Q :=
  let c := if (2 <? intel_len intel)%nat then 0 + (3#10) else 0 in
  let c := if (1 <? dflt 0%Z (ev_failure_count ev))%Z then c + (3#10) else c in
  let c := match i_gnn intel with
           | Some (p :: ps) => c + fold_left py_max (map snd ps) (snd p) * (4#10)
           | _ => c
           end in
  py_min 1 c.

(** [_choose_best_action]. *)
Definition choose_best_action (ev : event) (intel : intelligence) (rt : routing)
    : result decision :=
  let* recommendations := collect_recommendations intel in
  match recommendations with
  | [] =>
    Ok (mk_decision (Some (PStr "do_nothing")) None (Some 0) (Some []) (Some (1#2))
          None None None None None)
  | r :: rs =>
    let best_rec := py_max_by r_confidence r rs in
    let* risk := calculate_risk_score ev intel in
    Ok (mk_decision (Some (r_action best_rec)) None (Some (r_confidence best_rec))
          (Some recommendations) (Some risk) (Some (rt_target_agent rt))
          None None None None)
  end.

(** [_execute_through_agent]: the dispatch record. *)
Record execution_result := mk_execution {
  ex_agent : string;
  ex_action : option pval;
  ex_status : string;
  ex_timestamp : Z }.

Record process_result := mk_process_result {
  pr_event : event;
  pr_routing : routing;
  pr_decision : decision;
  pr_recovery_plan : recovery_plan;
  pr_execution_result : execution_result;
  pr_decision_id : string }.

(** The orchestrator's own state: its safety layer, the estimator's
    reliability ledger and the memory. *)
Record orchestrator := mk_orchestrator {
  o_safety_layer : safety_layer;
  o_component_history : ledger;
  o_memory : MetaAgentMemory }.

Section Orchestrator.

Variable sqrt : Q -> Q.
Variable contains_unsafe_patterns : pdict -> bool.

(** [process_event]. [intel] is what [_gather_intelligence] returned;
    [now_id], [now_ts] and [now_exec] are clock readings and [embedding] the
    vector [_generate_embedding] draws. *)
Definition process_event (o : orchestrator) (ev : event) (intel : intelligence)
    (now_id now_ts now_exec : Z) (embedding : list Q)
    : result (process_result * orchestrator) :=
  let mem1 := store_event (o_memory o) ev in
  let rt := route_event ev in
  let target_agent := rt_target_agent rt in
  let* decision := choose_best_action ev intel rt in
  let plan := coordinate_recovery_plan decision intel in
  let '(confidence, _) :=
    estimate_confidence sqrt (o_component_history o) (dflt [] (d_recommendations decision))
      (assess_complexity ev intel) (dflt (1#2) (d_risk_score decision)) None in
  let* safe := apply_safety_checks contains_unsafe_patterns (o_safety_layer o) decision ev in
  let safe := set_confidence safe (Some confidence) in
  let '(decision_id, mem2) := store_decision mem1 safe ev None now_id now_ts embedding in
  let execution := mk_execution target_agent (d_action safe) "executed" now_exec in
  Ok (mk_process_result ev rt safe plan execution decision_id,
      mk_orchestrator (o_safety_layer o) (o_component_history o) mem2).

End Orchestrator.

(** ** More of [SafetyLayer] *)

(** [_check_scaling_limits]: the chained comparison
    [min_replicas <= target_replicas <= max_replicas] raises on a string. *)
Definition check_scaling_limits (sl : safety_layer) (action : string) (params : pdict)
    : result bool :=
  if negb (contains "scale" action) then Ok true else
  let target_replicas := match dget "target_replicas" params with
                         | Some v => v
                         | None => match dget "replicas" params with
                                   | Some v => v
                                   | None => PInt 0
                                   end
                         end in
  match target_replicas with
  | PStr _ => Raise TypeError
  | PInt t => Ok ((min_replicas sl <=? t) && (t <=? max_replicas sl))%Z
  end.

(** The dict [get_safety_report] returns, its ["safety_checks"] flattened. *)
Record safety_report := mk_report {
  rep_is_safe : bool;
  rep_error_message : option string;
  rep_action : pval;
  rep_corrected_action : option pdict;
  rep_allowed_action : bool;
  rep_no_deletion_of_protected : bool;
  rep_scaling_within_limits : bool;
  rep_no_unsafe_patterns : bool }.

Section SafetyReport.

Variable contains_unsafe_patterns : pdict -> bool.
Variable sl : safety_layer.

(** Two tests on printed dicts, left as parameters like
    [contains_unsafe_patterns]: [any(p in str(action_params).lower() for p in
    self.protected_resources)] and
    [self._contains_unsafe_patterns(str(decision))]. *)
Variable protected_in_printed_params : pdict -> bool.
Variable unsafe_in_printed_decision : decision -> bool.

(** [get_safety_report]; the [context] argument is not read by the source.
    [_is_deletion_action] calls [action.lower()], which raises on an
    [int] action. *)
Definition get_safety_report (d : decision) (_ : event) : result safety_report :=
  let action := match d_action d with Some a => a | None => PStr EmptyString end in
  let action_params := match d_action_params d with Some p => p | None => [] end in
  let* v := validate_action contains_unsafe_patterns sl action (d_action_params d) in
  let '(is_safe, error_msg, corrected) := v in
  match action with
  | PInt _ => Raise AttributeError
  | PStr a =>
    let allowed := mem a (allowed_actions sl) in
    let no_deletion :=
      negb (is_deletion_action a && protected_in_printed_params action_params) in
    let* scaling := check_scaling_limits sl a action_params in
    Ok (mk_report is_safe error_msg action (if is_safe then None else Some corrected)
          allowed no_deletion scaling (negb (unsafe_in_printed_decision d)))
  end.

End SafetyReport.

Section SanitizeText.

(** The [re.sub(pattern, "[REMOVED]", text, flags=re.IGNORECASE)] loop over
    [unsafe_patterns], left as a parameter. *)
Variable remove_unsafe_patterns : string -> string.

(** The argument of [_sanitize_text]: a [str], or any other value, known
    here only by its printed form [str(text)]. *)
Inductive text_value :=
| TStr (text : string)
| TOther (printed : string).

(** [_sanitize_text]. *)
Definition sanitize_text (text : text_value) : string :=
  match text with
  | TOther printed => printed
  | TStr text =>
      let text := remove_unsafe_patterns text in
      let max_length := 2000%nat in
      if (max_length <? String.length text)%nat
      then substring 0 max_length text ++ "..."
      else text
  end.

End SanitizeText.

(** ** More of [DecisionRouter] *)

(** [==] on the two enums. *)
Definition event_type_eqb (a b : EventType.t) : bool :=
  match a, b with
  | EventType.ERROR, EventType.ERROR | EventType.CRASH, EventType.CRASH
  | EventType.OVERLOAD, EventType.OVERLOAD | EventType.ANOMALY, EventType.ANOMALY
  | EventType.ATTACK, EventType.ATTACK | EventType.UNKNOWN, EventType.UNKNOWN => true
  | _, _ => false
  end.

Definition agent_eqb (a b : AgentType.t) : bool :=
  match a, b with
  | AgentType.CODE_AGENT, AgentType.CODE_AGENT
  | AgentType.SELF_HEALING_AGENT, AgentType.SELF_HEALING_AGENT
  | AgentType.SCALING_AGENT, AgentType.SCALING_AGENT
  | AgentType.MONITORING_AGENT, AgentType.MONITORING_AGENT
  | AgentType.SECURITY_AGENT, AgentType.SECURITY_AGENT
  | AgentType.UNKNOWN, AgentType.UNKNOWN => true
  | _, _ => false
  end.

(** [primary_agent != agent] for [primary_agent = self.routing_map.get(...)]. *)
Definition is_not_agent (primary : option AgentType.t) (a : AgentType.t) : bool :=
  match primary with Some b => negb (agent_eqb b a) | None => true end.

(** [get_supporting_agents]. [resource_mentioned] is the test
    ["resource" in str(event).lower()] on the printed event dict. *)
Definition get_supporting_agents (ev : event) (resource_mentioned : bool) : list string :=
  let event_type := classify_event ev in
  let primary_agent := routing_map event_type in
  let s1 := if is_not_agent primary_agent AgentType.MONITORING_AGENT
            then [AgentType.value AgentType.MONITORING_AGENT] else [] in
  let s2 := if match ev_severity ev with Some s => mem s ["high"; "critical"] | None => false end
            then if is_not_agent primary_agent AgentType.SECURITY_AGENT
                 then [AgentType.value AgentType.SECURITY_AGENT] else []
            else [] in
  let s3 := if event_type_eqb event_type EventType.CRASH && resource_mentioned
            then [AgentType.value AgentType.SCALING_AGENT] else [] in
  s1 ++ s2 ++ s3.

(** [AdaptiveRouter.agent_performance]: the dict keyed by
    [(event_type, agent)], in insertion order. *)
Record performance := mk_performance {
  perf_successes : Z;
  perf_failures : Z;
  perf_count : Z }.

Definition perf_key : Type := (EventType.t * AgentType.t)%type.

Definition perf_key_eqb (x y : perf_key) : bool :=
  event_type_eqb (fst x) (fst y) && agent_eqb (snd x) (snd y).

Fixpoint perf_get (k : perf_key) (d : list (perf_key * performance)) : option performance :=
  match d with
  | [] => None
  | (k', v) :: t => if perf_key_eqb k k' then Some v else perf_get k t
  end.

Fixpoint perf_set (k : perf_key) (v : performance) (d : list (perf_key * performance))
    : list (perf_key * performance) :=
  match d with
  | [] => [(k, v)]
  | (k', v') :: t => if perf_key_eqb k k' then (k', v) :: t else (k', v') :: perf_set k v t
  end.

(** [AdaptiveRouter.update_routing_performance]. *)
Definition update_routing_performance (agent_performance : list (perf_key * performance))
    (event_type : EventType.t) (agent : AgentType.t) (success : bool)
    : list (perf_key * performance) :=
  let key := (event_type, agent) in
  let perf := match perf_get key agent_performance with
              | Some p => p
              | None => mk_performance 0 0 0
              end in
  let perf' := mk_performance
                 (if success then perf_successes perf + 1 else perf_successes perf)%Z
                 (if success then perf_failures perf else perf_failures perf + 1)%Z
                 (perf_count perf + 1)%Z in
  perf_set key perf' agent_performance.

(** The loop of [AdaptiveRouter.route_event] over [agent_performance]. *)
Definition best_performer (agent_performance : list (perf_key * performance))
    (event_type : EventType.t) (default_agent : AgentType.t) : AgentType.t * Q :=
  fold_left (fun acc kv =>
    let '(best_agent, best_score) := acc in
    let '((et, agent), perf) := kv in
    if event_type_eqb et event_type && (0 <? perf_count perf)%Z then
      let success_rate := inject_Z (perf_successes perf) / inject_Z (perf_count perf) in
      if qltb best_score success_rate then (agent, success_rate) else (best_agent, best_score)
    else (best_agent, best_score))
    agent_performance (default_agent, 0).

(** [AdaptiveRouter.route_event]. *)
Definition adaptive_route_event (agent_performance : list (perf_key * performance))
    (ev : event) : routing :=
  let event_type := classify_event ev in
  let default_agent := match routing_map event_type with
                       | Some a => a
                       | None => AgentType.SELF_HEALING_AGENT
                       end in
  let '(best_agent, best_score) := best_performer agent_performance event_type default_agent in
  if qltb (7#10) best_score && negb (agent_eqb best_agent default_agent) then
    mk_routing (EventType.value event_type) (AgentType.value best_agent) best_score
  else
    mk_routing (EventType.value event_type) (AgentType.value default_agent)
      (match event_type with EventType.UNKNOWN => 1#2 | _ => 1 end).

(** ** More of [ConfidenceEstimator] *)

(** [get_component_reliability]. *)
Definition get_component_reliability (component_history : ledger) (component : string) : Q :=
  match dget component component_history with
  | None => 1#2
  | Some hist =>
    if (count hist =? 0)%Z then 1#2 else
    let success_rate := inject_Z (successes hist) / inject_Z (count hist) in
    let avg_confidence := total_confidence hist / inject_Z (count hist) in
    (7#10) * success_rate + (3#10) * avg_confidence
  end.

(** An entry of [decision_history]; [np.datetime64('now')] is a clock
    reading. *)
Record outcome_record := mk_outcome_record {
  or_decision_id : string;
  or_success : bool;
  or_actual_confidence : Q;
  or_timestamp : Z }.

(** [ConfidenceEstimator.update_decision_outcome]: append, then keep
    [self.decision_history[-10000:]]. *)
Definition record_decision_outcome (decision_history : list outcome_record)
    (decision_id : string) (success : bool) (actual_confidence : Q) (now : Z)
    : list outcome_record :=
  let h := decision_history ++ [mk_outcome_record decision_id success actual_confidence now] in
  if (10000 <? length h)%nat then skipn (length h - 10000) h else h.

(** ** More of [MetaAgentMemory] *)

(** [xs[i:]] and [xs[:i]] for an [int] [i]: a negative index counts from the
    end and is clipped at the start. *)
Definition py_index (i : Z) (n : nat) : nat :=
  Z.to_nat (if (i <? 0)%Z then Z.max 0 (Z.of_nat n + i) else i).

Definition py_slice_from {A} (i : Z) (xs : list A) : list A :=
  skipn (py_index i (length xs)) xs.

Definition py_slice_to {A} (i : Z) (xs : list A) : list A :=
  firstn (py_index i (length xs)) xs.

(** [if event_type: events = [e for e in events if e.get("type") == event_type]]. *)
Definition filter_by_type (events : list event) (event_type : option string) : list event :=
  match event_type with
  | Some t =>
    if String.eqb t EmptyString then events
    else filter (fun e => match ev_type e with
                          | Some t' => String.eqb t' t
                          | None => false
                          end) events
  | None => events
  end.

(** [ShortTermMemory.get_recent_events]. *)
Definition get_recent_events (st : ShortTermMemory) (event_type : option string) (limit : Z)
    : list event :=
  py_slice_from (- limit) (filter_by_type (recent_events st) event_type).

(** [ShortTermMemory.get_recent_decisions]. *)
Definition get_recent_decisions (st : ShortTermMemory) (limit : Z) : list decision :=
  py_slice_from (- limit) (recent_decisions st).

(** [store_pattern_embedding]: pad with zeros or truncate to the dimension. *)
Definition store_pattern_embedding (le : LongTermEmbeddings) (pattern_id : string)
    (embedding : list Q) (metadata : pdict) : LongTermEmbeddings :=
  let dim := embedding_dim le in
  let e := if (length embedding <? dim)%nat
           then embedding ++ repeat 0 (dim - length embedding)
           else firstn dim embedding in
  mk_embeddings dim (decision_embeddings le) (dset pattern_id e (pattern_embeddings le))
    (dset pattern_id (MPattern metadata) (embeddings_metadata le)).

(** A [(id, similarity, metadata)] tuple; [metadata] is [None] where
    [self.embeddings_metadata.get(id, {})] falls back to [{}]. *)
Record similar := mk_similar {
  sim_id : string;
  sim_score : Q;
  sim_metadata : option embedding_metadata }.

(** A loop that stops at the first exception. *)
Fixpoint map_result {A B} (f : A -> result B) (l : list A) : result (list B) :=
  match l with
  | [] => Ok []
  | x :: t => let* y := f x in let* ys := map_result f t in Ok (y :: ys)
  end.

(** [similarities.sort(key=lambda x: x[1], reverse=True)]: stable, so equal
    scores keep their order. *)
Fixpoint insert_by_similarity (x : similar) (l : list similar) : list similar :=
  match l with
  | [] => [x]
  | h :: t => if Qle_bool (sim_score h) (sim_score x) then x :: h :: t
              else h :: insert_by_similarity x t
  end.

Fixpoint sort_by_similarity (l : list similar) : list similar :=
  match l with
  | [] => []
  | h :: t => insert_by_similarity h (sort_by_similarity t)
  end.

Section Similarity.

(** The square root inside [np.linalg.norm], a parameter as in [Estimator]. *)
Variable sqrt : Q -> Q.

(** [v / (np.linalg.norm(v) + 1e-8)]. *)
Definition normalize (v : list Q) : list Q :=
  let n := sqrt (qsum (map (fun x => x * x) v)) + (1#100000000) in
  map (fun x => x / n) v.

(** [np.dot] of two 1-D arrays: their lengths must agree. *)
Definition np_dot (u v : list Q) : result Q :=
  if (length u =? length v)%nat
  then Ok (qsum (map (fun xy => fst xy * snd xy) (combine u v)))
  else Raise ValueError.

(** The common body of [find_similar_decisions] and [find_similar_patterns]. *)
Definition find_similar (embeddings : list (string * list Q))
    (metadata : list (string * embedding_metadata)) (query_embedding : list Q) (top_k : Z)
    : result (list similar) :=
  match embeddings with
  | [] => Ok []
  | _ =>
    let query_norm := normalize query_embedding in
    let* similarities :=
      map_result (fun kv =>
        let* similarity := np_dot query_norm (normalize (snd kv)) in
        Ok (mk_similar (fst kv) similarity (dget (fst kv) metadata))) embeddings in
    Ok (py_slice_to top_k (sort_by_similarity similarities))
  end.

(** [find_similar_decisions] and [find_similar_patterns]. *)
Definition find_similar_decisions (le : LongTermEmbeddings) (query_embedding : list Q)
    (top_k : Z) : result (list similar) :=
  find_similar (decision_embeddings le) (embeddings_metadata le) query_embedding top_k.

Definition find_similar_patterns (le : LongTermEmbeddings) (query_embedding : list Q)
    (top_k : Z) : result (list similar) :=
  find_similar (pattern_embeddings le) (embeddings_metadata le) query_embedding top_k.

End Similarity.

(** [DecisionArchive.get_decision]: [self.archives.get(decision_id)]. *)
Definition get_decision (da : DecisionArchive) (decision_id : string) : option archive_entry :=
  find (fun e => String.eqb (ae_decision_id e) decision_id) (archives da).

(** The query dict of [search_decisions]: a field is [None] when its key is
    absent. The ["action"] and ["success"] values may themselves be [None]. *)
Record search_query := mk_query {
  q_action : option (option pval);
  q_success : option (option bool);
  q_start_time : option Z;
  q_end_time : option Z }.

(** [==] between two values that may be [None]. *)
Definition opt_eqb {A} (eqb : A -> A -> bool) (x y : option A) : bool :=
  match x, y with
  | Some a, Some b => eqb a b
  | None, None => true
  | _, _ => false
  end.

(** The [match] flag of the [search_decisions] loop. *)
Definition entry_matches (query : search_query) (e : archive_entry) : bool :=
  (match q_action query with
   | Some a => opt_eqb pval_eqb (d_action (ae_decision e)) a
   | None => true
   end) &&
  (match q_success query with
   | Some s => opt_eqb Bool.eqb (ae_success e) s
   | None => true
   end) &&
  (match q_start_time query with
   | Some t => negb (ae_timestamp e <? t)%Z
   | None => true
   end) &&
  (match q_end_time query with
   | Some t => negb (t <? ae_timestamp e)%Z
   | None => true
   end).

(** [results.sort(key=timestamp, reverse=True)]: stable, newest first. *)
Fixpoint insert_newest_first (e : archive_entry) (l : list archive_entry) : list archive_entry :=
  match l with
  | [] => [e]
  | h :: t => if (ae_timestamp h <=? ae_timestamp e)%Z then e :: h :: t
              else h :: insert_newest_first e t
  end.

Fixpoint sort_newest_first (l : list archive_entry) : list archive_entry :=
  match l with
  | [] => []
  | h :: t => insert_newest_first h (sort_newest_first t)
  end.

(** [search_decisions]. *)
Definition search_decisions (da : DecisionArchive) (query : search_query) (limit : Z)
    : list archive_entry :=
  py_slice_to limit (sort_newest_first (filter (entry_matches query) (archives da))).

(** * Properties *)

(** ** Generic facts about the model *)

Lemma bind_inv {A B} (m : result A) (k : A -> result B) (b : B) :
  bind m k = Ok b -> exists a, m = Ok a /\ k a = Ok b.
Proof. destruct m as [a|e]; simpl; [eauto | discriminate]. Qed.

Lemma qltb_true (a b : Q) : qltb a b = true -> (a < b)%Q.
Proof.
  unfold qltb. destruct (Qle_bool b a) eqn:E; simpl; [discriminate|].
  intros _. apply Qnot_le_lt. intro Hle. apply Qle_bool_iff in Hle. congruence.
Qed.

Lemma qltb_false (a b : Q) : qltb a b = false -> (b <= a)%Q.
Proof.
  unfold qltb. destruct (Qle_bool b a) eqn:E; simpl; [|discriminate].
  intros _. apply Qle_bool_iff. exact E.
Qed.

(** Python's [max(0.0, min(1.0, c))] lands in the unit interval. *)
Lemma clamp01_range (c : Q) : (0 <= py_max 0 (py_min 1 c) <= 1)%Q.
Proof.
  unfold py_max, py_min.
  destruct (qltb c 1) eqn:E1.
  - apply qltb_true in E1.
    destruct (qltb 0 c) eqn:E2.
    + apply qltb_true in E2. split; apply Qlt_le_weak; assumption.
    + split; [apply Qle_refl | discriminate].
  - destruct (qltb 0 1) eqn:E2.
    + split; [discriminate | apply Qle_refl].
    + vm_compute in E2. discriminate.
Qed.

Lemma estimate_confidence_range sqrt hist recs cx rs w :
  (0 <= fst (estimate_confidence sqrt hist recs cx rs w) <= 1)%Q.
Proof.
  unfold estimate_confidence. destruct recs as [|r rs'].
  - simpl. split; discriminate.
  - cbn [fst]. apply clamp01_range.
Qed.

Lemma sanitize_output_flag u sl d s :
  sanitize_output u sl d = Ok s -> exists b, d_safety_corrected s = Some b.
Proof.
  unfold sanitize_output. intro H. apply bind_inv in H as [[[ok m] c] [_ H]].
  destruct ok; inversion H; subst; simpl; eauto.
Qed.

Lemma clamp_target_flag v m s s' :
  clamp_target v m s = Ok s' -> d_safety_corrected s' = Some true.
Proof.
  unfold clamp_target. destruct (d_action_params s); intro H; inversion H; reflexivity.
Qed.

(** The shape of every decision [apply_safety_checks] returns: the
    correction flag is set and [is_safe] is its negation. *)
Lemma apply_safety_checks_flags u sl d ctx s :
  apply_safety_checks u sl d ctx = Ok s ->
  exists b, d_safety_corrected s = Some b /\ d_is_safe s = Some (negb b)
            /\ d_safety_checked s = Some true.
Proof.
  unfold apply_safety_checks. intro H.
  apply bind_inv in H as [s0 [H0 H]].
  destruct (sanitize_output_flag _ _ _ _ H0) as [b0 Hb0].
  destruct (match d_action s0 with Some a => a | None => PStr EmptyString end) as [z|a];
    [discriminate|].
  apply bind_inv in H as [s2 [H2 H]].
  assert (Hs2 : exists b, d_safety_corrected s2 = Some b).
  { destruct (contains "scale" a); [|inversion H2; subst; eauto].
    destruct (match dget "target_replicas" _ with Some v => v | None => _ end)
      as [t|str]; [|discriminate].
    apply bind_inv in H2 as [s1 [H1 H2]].
    destruct (t <? min_replicas sl)%Z.
    - eauto using clamp_target_flag.
    - inversion H2; subst.
      destruct (max_replicas sl <? t)%Z; [eauto using clamp_target_flag|].
      inversion H1; subst; eauto. }
  apply bind_inv in H as [s3 [H3 H]].
  assert (Hs3 : exists b, d_safety_corrected s3 = Some b).
  { destruct Hs2 as [b2 Hb2].
    destruct (truthy _); [|inversion H3; subst; eauto].
    destruct (match dget "resource_name" _ with Some v => v | None => _ end)
      as [z|r]; [discriminate|].
    destruct (any_protected sl (lower r) && is_deletion_action a);
      inversion H3; subst; simpl; eauto. }
  destruct Hs3 as [b3 Hb3]. inversion H; subst; simpl.
  rewrite Hb3. eauto.
Qed.

(** ** The decisions [process_event] produces *)

Definition unit_sqrt (q : Q) : Q := q.

(** C4: every decision returned (and archived) by [process_event] has a
    confidence in [0, 1] and [is_safe] equal to the negation of
    [safety_corrected]. *)
Theorem process_event_decision_invariants sqrt u o ev intel n1 n2 n3 emb r o' :
  process_event sqrt u o ev intel n1 n2 n3 emb = Ok (r, o') ->
  (exists c, d_confidence (pr_decision r) = Some c /\ (0 <= c <= 1)%Q) /\
  (exists b, d_safety_corrected (pr_decision r) = Some b
             /\ d_is_safe (pr_decision r) = Some (negb b)).
Proof.
  unfold process_event. intro H.
  apply bind_inv in H as [d [_ H]].
  destruct (estimate_confidence sqrt _ _ _ _ None) as [conf det] eqn:Est.
  apply bind_inv in H as [s [Hs H]].
  destruct (store_decision _ _ _ _ _ _ _) as [did m2].
  inversion H; subst; simpl. split.
  - exists conf. split; [reflexivity|].
    pose proof (estimate_confidence_range sqrt (o_component_history o)
      (dflt [] (d_recommendations d)) (assess_complexity ev intel)
      (dflt (1#2) (d_risk_score d)) None) as R.
    rewrite Est in R. exact R.
  - destruct (apply_safety_checks_flags _ _ _ _ _ Hs) as [b [Hb [Hi _]]].
    exists b. split; assumption.
Qed.

Definition scenario_event : event := mk_event (Some "pod_crash") None None None.
Definition scenario_orchestrator : orchestrator :=
  mk_orchestrator default_safety_layer [] (MetaAgentMemory_init 100 50 128 10).
Definition scenario_a_intel : intelligence :=
  mk_intel (Some (PStr "restart_pod", 8#10)) None None None.

Lemma process_event_decision_invariants_witness :
  exists r o',
    process_event unit_sqrt (fun _ => false) scenario_orchestrator scenario_event
      scenario_a_intel 1 2 3 [] = Ok (r, o') /\
    (exists c, d_confidence (pr_decision r) = Some c /\ (0 <= c <= 1)%Q) /\
    (exists b, d_safety_corrected (pr_decision r) = Some b
               /\ d_is_safe (pr_decision r) = Some (negb b)).
Proof.
  destruct (process_event unit_sqrt (fun _ => false) scenario_orchestrator scenario_event
              scenario_a_intel 1 2 3 []) as [[r o']|e] eqn:E.
  - exists r, o'. split; [reflexivity|].
    exact (process_event_decision_invariants _ _ _ _ _ _ _ _ _ _ _ E).
  - vm_compute in E. discriminate.
Defined.

Lemma validate_action_do_nothing u sl :
  exists ok m, validate_action u sl (PStr "do_nothing") None
               = Ok (ok, m, [("action", PStr "do_nothing")]).
Proof.
  unfold validate_action. cbn -[mem is_deletion_action contains].
  rewrite (eq_refl : is_deletion_action "do_nothing" = false).
  rewrite (eq_refl : contains "scale" "do_nothing" = false).
  cbn -[mem].
  destruct (mem "do_nothing" (allowed_actions sl)); cbn -[mem]; eauto.
  destruct (u []); eauto. destruct (mem "do_nothing" (dangerous_actions sl)); eauto.
Qed.

Lemma apply_safety_checks_do_nothing u sl d ctx :
  d_action d = Some (PStr "do_nothing") -> d_action_params d = None ->
  exists s, apply_safety_checks u sl d ctx = Ok s /\ d_action s = Some (PStr "do_nothing").
Proof.
  destruct d; cbn; intros Ha Hp; subst.
  unfold apply_safety_checks, sanitize_output. cbn [d_action d_action_params].
  destruct (validate_action_do_nothing u sl) as [ok [m E]]. rewrite E.
  destruct ok; cbn -[contains is_deletion_action any_protected lower];
    rewrite (eq_refl : contains "scale" "do_nothing" = false); cbn;
    eexists; split; reflexivity.
Qed.

(** C5: when the advisors' answers yield no recommendation, [process_event]
    completes, with a [do_nothing] decision of confidence 0 and the one-step
    monitoring plan. *)
Theorem process_event_without_recommendations sqrt u o ev intel n1 n2 n3 emb :
  collect_recommendations intel = Ok [] ->
  exists r o',
    process_event sqrt u o ev intel n1 n2 n3 emb = Ok (r, o') /\
    d_action (pr_decision r) = Some (PStr "do_nothing") /\
    d_confidence (pr_decision r) = Some 0%Q /\
    pr_recovery_plan r = mk_plan [mk_step 1 "monitor_situation" 60] 60 None /\
    length (steps (pr_recovery_plan r)) = 1%nat.
Proof.
  intro H. unfold process_event, choose_best_action. rewrite H. cbn [bind].
  destruct (apply_safety_checks_do_nothing u (o_safety_layer o)
    (mk_decision (Some (PStr "do_nothing")) None (Some 0%Q) (Some []) (Some (1#2))
       None None None None None) ev eq_refl eq_refl) as [s [Hs Ha]].
  cbn [estimate_confidence dflt d_recommendations]. rewrite Hs. cbn [bind].
  destruct (store_decision _ _ _ _ _ _ _) as [did m2].
  eexists; eexists; split; [reflexivity|]. cbn.
  repeat split; first [exact Ha | reflexivity].
Qed.

Definition scenario_d_intel : intelligence := mk_intel None None None None.

Lemma process_event_without_recommendations_witness :
  collect_recommendations scenario_d_intel = Ok [] /\
  exists r o',
    process_event unit_sqrt (fun _ => false) scenario_orchestrator scenario_event
      scenario_d_intel 1 2 3 [] = Ok (r, o') /\
    d_action (pr_decision r) = Some (PStr "do_nothing") /\
    d_confidence (pr_decision r) = Some 0%Q /\
    pr_recovery_plan r = mk_plan [mk_step 1 "monitor_situation" 60] 60 None /\
    length (steps (pr_recovery_plan r)) = 1%nat.
Proof.
  split; [reflexivity|].
  apply process_event_without_recommendations. reflexivity.
Defined.

(** ** The recovery plan table *)

Lemma pval_eqb_true a b : pval_eqb a b = true -> a = b.
Proof.
  destruct a, b; simpl; try discriminate.
  - intro H. apply Z.eqb_eq in H. subst. reflexivity.
  - intro H. apply String.eqb_eq in H. subst. reflexivity.
Qed.

Lemma pval_eqb_refl a : pval_eqb a a = true.
Proof. destruct a; simpl; [apply Z.eqb_refl | apply String.eqb_refl]. Qed.

Definition scale_down_decision : decision :=
  set_action empty_decision (Some (PStr "scale_down")).

(** C7 (counterexample): [scale_down] does not get the three-step, 185 s
    scaling plan; it gets the one-step monitoring plan of 60 s. *)
Lemma recovery_plan_scale_down_counterexample :
  coordinate_recovery_plan scale_down_decision scenario_d_intel
    = mk_plan [mk_step 1 "monitor_situation" 60] 60 None /\
  estimated_duration (coordinate_recovery_plan scale_down_decision scenario_d_intel) <> 185%Z /\
  length (steps (coordinate_recovery_plan scale_down_decision scenario_d_intel)) <> 3%nat.
Proof. split; [reflexivity | split; discriminate]. Qed.

Ltac plan_row :=
  repeat match goal with
         | |- _ /\ _ => split
         | |- forall _, _ => intro
         end;
  cbn in *; try reflexivity; try lia; try discriminate;
  try match goal with
      | H : d_action _ = _ |- _ =>
          rewrite H; cbn;
          repeat match goal with E : ?x = false |- context [?x] => rewrite E end;
          reflexivity
      end;
  try match goal with
      | H : ~ _ |- _ => exfalso; apply H; auto
      end;
  try match goal with
      | H : Some ?v = Some _ |- _ =>
          injection H as Hv; subst v;
          repeat match goal with E : pval_eqb _ _ = false |- _ =>
                   rewrite pval_eqb_refl in E end;
          discriminate
      end.

(** C7 (amended): the plan is a function of the decision's action alone,
    has at least one step and an estimated duration equal to the sum of its
    step durations; [restart_pod] has 3 steps and 95 s, [scale_up] 3 steps
    and 185 s, [rebuild_deployment] 4 steps, 390 s and the 120 s
    [restore_backup] rollback; every other action, [scale_down] and
    [do_nothing] included, has the single 60 s monitoring step. *)
Theorem coordinate_recovery_plan_table d intel :
  let p := coordinate_recovery_plan d intel in
  (1 <= length (steps p))%nat /\
  estimated_duration p = fold_right Z.add 0%Z (map step_duration (steps p)) /\
  (forall d' intel', d_action d' = d_action d -> coordinate_recovery_plan d' intel' = p) /\
  (d_action d = Some (PStr "restart_pod") ->
     length (steps p) = 3%nat /\ estimated_duration p = 95%Z /\ rollback_plan p = None) /\
  (d_action d = Some (PStr "scale_up") ->
     length (steps p) = 3%nat /\ estimated_duration p = 185%Z /\ rollback_plan p = None) /\
  (d_action d = Some (PStr "rebuild_deployment") ->
     length (steps p) = 4%nat /\ estimated_duration p = 390%Z
     /\ rollback_plan p = Some ("restore_backup", 120%Z)) /\
  (~ In (d_action d) [Some (PStr "restart_pod"); Some (PStr "scale_up");
                      Some (PStr "rebuild_deployment")] ->
     p = mk_plan [mk_step 1 "monitor_situation" 60] 60 None).
Proof.
  cbv zeta. unfold coordinate_recovery_plan.
  destruct (d_action d) as [v|] eqn:Ev; [|plan_row].
  destruct (pval_eqb v (PStr "restart_pod")) eqn:E1.
  { apply pval_eqb_true in E1. subst. plan_row. }
  destruct (pval_eqb v (PStr "scale_up")) eqn:E2.
  { apply pval_eqb_true in E2. subst. plan_row. }
  destruct (pval_eqb v (PStr "rebuild_deployment")) eqn:E3.
  { apply pval_eqb_true in E3. subst. plan_row. }
  plan_row.
Qed.

(** ** Recording an outcome *)

(** C10: [update_decision_outcome] never fails and touches only the archive.
    For an id that is not archived the memory is unchanged. Otherwise the
    short-term memory, the embeddings, the archive bound and the patterns
    are unchanged, and the archive keeps its entries in order. An entry with
    another id is unchanged, and the entry with that id differs only in its
    [outcome] and [success] fields. *)
Theorem update_decision_outcome_frame m decision_id outcome success :
  let m' := update_decision_outcome m decision_id outcome success in
  (~ In decision_id (map ae_decision_id (archives (decision_archive m))) -> m' = m) /\
  short_term m' = short_term m /\
  long_term_embeddings m' = long_term_embeddings m /\
  max_size (decision_archive m') = max_size (decision_archive m) /\
  patterns (decision_archive m') = patterns (decision_archive m) /\
  Forall2 (fun e e' =>
      (ae_decision_id e <> decision_id -> e' = e) /\
      (ae_decision_id e = decision_id ->
         e' = mk_entry (ae_decision_id e) (ae_timestamp e) (ae_decision e)
                (ae_context e) (Some outcome) (Some success)))
    (archives (decision_archive m)) (archives (decision_archive m')).
Proof.
  cbv zeta. unfold update_decision_outcome.
  destruct (existsb (fun e => String.eqb (ae_decision_id e) decision_id)
              (archives (decision_archive m))) eqn:Ex.
  - apply existsb_exists in Ex as [e0 [Hin He0]].
    apply String.eqb_eq in He0.
    cbn. split.
    { intro Hn. exfalso. apply Hn. subst. apply in_map. exact Hin. }
    do 4 (split; [reflexivity|]).
    clear Hin He0 e0.
    induction (archives (decision_archive m)) as [|e l IH]; cbn; constructor.
    + destruct (String.eqb_spec (ae_decision_id e) decision_id); split; intro H;
        congruence.
    + exact IH.
  - repeat split; try reflexivity.
    induction (archives (decision_archive m)) as [|e l IH]; constructor.
    + cbn in Ex. split; [reflexivity|].
      intro H. rewrite H, String.eqb_refl in Ex. discriminate.
    + cbn in Ex. apply IH. destruct (String.eqb _ _); [discriminate | exact Ex].
Qed.

(** ** Choosing among the recommendations *)

(** The collection order of [_choose_best_action]: RL, LLM, GNN, forecaster. *)
Definition source_rank (s : string) : nat :=
  if String.eqb s "rl_agent" then 0
  else if String.eqb s "llm_reasoning" then 1
  else if String.eqb s "gnn" then 2
  else 3.

Definition earlier_source (a b : recommendation) : Prop :=
  (source_rank (r_source a) < source_rank (r_source b))%nat.

Lemma collect_recommendations_order intel recs :
  collect_recommendations intel = Ok recs -> StronglySorted earlier_source recs.
Proof.
  unfold collect_recommendations. intro H.
  destruct (i_rl intel) as [[a c]|];
  destruct (i_llm intel) as [l|];
  destruct (i_gnn intel) as [[|p ps]|];
  destruct (i_transformers intel) as [f|];
  try (destruct (cpu_forecast f) as [cf|];
       [destruct (np_truthy cf) as [[|]|];
        [destruct (qltb 80 (mean cf))|..]|]);
  cbn in H; inversion H; subst; clear H;
  repeat (constructor || (unfold earlier_source; cbn; lia)).
Qed.

Lemma StronglySorted_app_rel {A} (R : A -> A -> Prop) l1 l2 :
  StronglySorted R (l1 ++ l2) -> forall a b, In a l1 -> In b l2 -> R a b.
Proof.
  induction l1 as [|x l1 IH]; cbn; [tauto|].
  intros HS a b [<-|Ha] Hb; inversion HS; subst.
  - eapply Forall_forall; [eassumption|]. apply in_or_app. right. exact Hb.
  - apply IH; assumption.
Qed.

(** [max] with a key as a fold: the result splits the list into the elements
    before it, all of strictly smaller key, and those after it, none of
    larger key. *)
Lemma py_max_by_split {A} (key : A -> Q) xs :
  forall pre cur post,
  (forall y, In y pre -> key y < key cur)%Q ->
  (forall y, In y post -> key y <= key cur)%Q ->
  exists pre' post',
    pre ++ cur :: post ++ xs
      = pre' ++ fold_left (fun c y => if qltb (key c) (key y) then y else c) xs cur :: post' /\
    (forall y, In y pre' -> key y < key (fold_left (fun c y => if qltb (key c) (key y) then y else c) xs cur))%Q /\
    (forall y, In y post' -> key y <= key (fold_left (fun c y => if qltb (key c) (key y) then y else c) xs cur))%Q.
Proof.
  induction xs as [|x xs IH]; intros pre cur post Hpre Hpost.
  - exists pre, post. rewrite app_nil_r. auto.
  - cbn. destruct (qltb (key cur) (key x)) eqn:E.
    + apply qltb_true in E.
      destruct (IH (pre ++ cur :: post) x [])
        as [pre' [post' [Heq [H1 H2]]]].
      * intros y Hy. apply in_app_or in Hy as [Hy|[<-|Hy]].
        -- eapply Qlt_trans; [apply Hpre; exact Hy | exact E].
        -- exact E.
        -- eapply Qle_lt_trans; [apply Hpost; exact Hy | exact E].
      * intros y [].
      * exists pre', post'. split; [|split; assumption].
        rewrite <- Heq. rewrite <- app_assoc. reflexivity.
    + apply qltb_false in E.
      destruct (IH pre cur (post ++ [x])) as [pre' [post' [Heq [H1 H2]]]].
      * exact Hpre.
      * intros y Hy. apply in_app_or in Hy as [Hy|[<-|[]]]; [apply Hpost; exact Hy | exact E].
      * exists pre', post'. split; [|split; assumption].
        rewrite <- Heq. rewrite <- app_assoc. reflexivity.
Qed.

Definition c8_intel : intelligence :=
  mk_intel (Some (PStr "restart_pod", 8#10)) None (Some [("svc", 8#10)]) None.

(** C8 (counterexample): RL recommends [restart_pod] and the GNN recommends
    [trigger_heal], both with confidence 0.8. The GNN recommendation does not
    win the tie: the RL action is chosen. *)
Lemma choose_best_action_tie_counterexample :
  collect_recommendations c8_intel
    = Ok [mk_rec (PStr "restart_pod") (8#10) "rl_agent";
          mk_rec (PStr "trigger_heal") (8#10) "gnn"] /\
  exists d, choose_best_action scenario_event c8_intel (route_event scenario_event) = Ok d /\
            d_action d = Some (PStr "restart_pod").
Proof. split; [reflexivity | eexists; split; reflexivity]. Qed.

(** C8 (amended): the chosen recommendation is one of maximal confidence,
    and every recommendation collected before it (RL, then LLM, then GNN,
    then forecaster) has strictly smaller confidence. On a tie the earliest
    source in that fixed order wins. *)
Theorem choose_best_action_first_maximum ev intel rt r rs d :
  collect_recommendations intel = Ok (r :: rs) ->
  choose_best_action ev intel rt = Ok d ->
  exists best,
    In best (r :: rs) /\
    d_action d = Some (r_action best) /\ d_confidence d = Some (r_confidence best) /\
    (forall y, In y (r :: rs) -> r_confidence y <= r_confidence best)%Q /\
    (forall y, In y (r :: rs) -> earlier_source y best -> r_confidence y < r_confidence best)%Q.
Proof.
  intros Hc Hd. unfold choose_best_action in Hd. rewrite Hc in Hd. cbn [bind] in Hd.
  apply bind_inv in Hd as [risk [_ Hd]]. injection Hd as <-.
  pose proof (collect_recommendations_order _ _ Hc) as Hs.
  destruct (py_max_by_split r_confidence rs [] r [] ltac:(intros ? [])
              ltac:(intros ? [])) as [pre [post [Heq [Hpre Hpost]]]].
  cbn in Heq. fold (py_max_by r_confidence r rs) in Heq, Hpre, Hpost.
  set (best := py_max_by r_confidence r rs) in *.
  exists best. rewrite Heq in Hs |- *.
  split; [apply in_or_app; right; left; reflexivity|].
  split; [reflexivity|]. split; [reflexivity|]. split.
  - intros y Hy. apply in_app_or in Hy as [Hy|[<-|Hy]].
    + apply Qlt_le_weak, Hpre, Hy.
    + apply Qle_refl.
    + apply Hpost, Hy.
  - intros y Hy Hlt. apply in_app_or in Hy as [Hy|[<-|Hy]].
    + apply Hpre, Hy.
    + unfold earlier_source in Hlt. lia.
    + exfalso.
      assert (Hs' : StronglySorted earlier_source (best :: post)).
      { clear -Hs. induction pre as [|x pre IH]; [exact Hs|].
        inversion Hs; subst. apply IH. assumption. }
      inversion Hs'; subst.
      pose proof (proj1 (Forall_forall _ _) H2 y Hy) as Hgt.
      unfold earlier_source in *. lia.
Qed.

Lemma choose_best_action_first_maximum_witness :
  exists d best,
    choose_best_action scenario_event c8_intel (route_event scenario_event) = Ok d /\
    In best [mk_rec (PStr "restart_pod") (8#10) "rl_agent";
             mk_rec (PStr "trigger_heal") (8#10) "gnn"] /\
    d_action d = Some (r_action best) /\ d_confidence d = Some (r_confidence best) /\
    (forall y, In y [mk_rec (PStr "restart_pod") (8#10) "rl_agent";
                     mk_rec (PStr "trigger_heal") (8#10) "gnn"] ->
       r_confidence y <= r_confidence best)%Q /\
    (forall y, In y [mk_rec (PStr "restart_pod") (8#10) "rl_agent";
                     mk_rec (PStr "trigger_heal") (8#10) "gnn"] ->
       earlier_source y best -> r_confidence y < r_confidence best)%Q.
Proof.
  destruct (choose_best_action scenario_event c8_intel (route_event scenario_event))
    as [d|e] eqn:E; [|vm_compute in E; discriminate].
  destruct (choose_best_action_first_maximum scenario_event c8_intel
              (route_event scenario_event) (mk_rec (PStr "restart_pod") (8#10) "rl_agent")
              [mk_rec (PStr "trigger_heal") (8#10) "gnn"] d eq_refl E) as [best Hb].
  exists d, best. split; [reflexivity | exact Hb].
Defined.

(** ** The historical-accuracy factor *)

(** A recommendation's source accuracy, [successes / count], when its source
    is in the ledger with a positive count. *)
Definition source_accuracy (hist : ledger) (rec : recommendation) : option Q :=
  match dget (r_source rec) hist with
  | Some h => if (0 <? count h)%Z then Some (inject_Z (successes h) / inject_Z (count h))
              else None
  | None => None
  end.

Fixpoint known_accuracies (hist : ledger) (recs : list recommendation) : list Q :=
  match recs with
  | [] => []
  | rec :: t =>
    match source_accuracy hist rec with
    | Some a => a :: known_accuracies hist t
    | None => known_accuracies hist t
    end
  end.

(** The factor as the amended claim states it: the mean over the
    recommendations whose source has a positive count, and 0.5 when there
    is none. *)
Definition ledger_accuracy (hist : ledger) (recs : list recommendation) : Q :=
  match known_accuracies hist recs with
  | [] => 1#2
  | acc => mean acc
  end.

(** The factor as the claim states it: every recommendation contributes, an
    unseen source (or one with no count) with 0.5. *)
Definition claim_historical_accuracy (hist : ledger) (recs : list recommendation) : Q :=
  mean (map (fun rec => dflt (1#2) (source_accuracy hist rec)) recs).

Lemma known_accuracies_flat_map hist recs :
  flat_map (fun rec =>
    match dget (r_source rec) hist with
    | Some h =>
      if (0 <? count h)%Z then [inject_Z (successes h) / inject_Z (count h)] else []
    | None => []
    end) recs = known_accuracies hist recs.
Proof.
  induction recs as [|rec t IH]; [reflexivity|].
  cbn. rewrite IH. unfold source_accuracy.
  destruct (dget (r_source rec) hist) as [h|]; [|reflexivity].
  destruct (0 <? count h)%Z; reflexivity.
Qed.

Lemma known_accuracies_app hist l1 l2 :
  known_accuracies hist (l1 ++ l2) = known_accuracies hist l1 ++ known_accuracies hist l2.
Proof.
  induction l1 as [|x l1 IH]; [reflexivity|].
  cbn. rewrite IH. destruct (source_accuracy hist x); reflexivity.
Qed.

Definition c9_ledger : ledger := [("rl_agent", mk_component_record 1 0 1 (9#10))].
Definition c9_recs : list recommendation :=
  [mk_rec (PStr "restart_pod") (8#10) "rl_agent"; mk_rec (PStr "trigger_heal") (8#10) "gnn"].

(** C9 (counterexample): RL has one success in one try and the GNN is not
    in the ledger. The factor is 1: the GNN is left out and does not count
    as 0.5, which would give 0.75. *)
Lemma historical_accuracy_unseen_counterexample :
  exists f,
    snd (estimate_confidence unit_sqrt c9_ledger c9_recs (1#2) (1#2) None) = DFactors f /\
    historical_accuracy f == 1 /\
    claim_historical_accuracy c9_ledger c9_recs == 3#4 /\
    ~ (historical_accuracy f == claim_historical_accuracy c9_ledger c9_recs).
Proof.
  eexists. split; [reflexivity|]. cbn.
  split; [reflexivity|]. split; [reflexivity|].
  intro H. vm_compute in H. discriminate.
Qed.

(** C9 (amended): for a non-empty recommendation list, the
    [historical_accuracy] factor of [estimate_confidence] is the mean of
    [successes / count] over the recommendations whose source is in the
    ledger with a positive count, and 0.5 when there is no such
    recommendation. An unseen source contributes nothing: appending a
    recommendation from a source the ledger does not hold leaves the factor
    unchanged. *)
Theorem estimate_confidence_historical_accuracy sqrt hist r rs cx rk w :
  (exists f,
    snd (estimate_confidence sqrt hist (r :: rs) cx rk w) = DFactors f /\
    historical_accuracy f = ledger_accuracy hist (r :: rs)) /\
  (forall rec, dget (r_source rec) hist = None ->
     get_historical_accuracy hist ((r :: rs) ++ [rec])
     = get_historical_accuracy hist (r :: rs)).
Proof.
  split.
  - eexists. split; [reflexivity|]. cbn [historical_accuracy].
    unfold get_historical_accuracy, ledger_accuracy.
    rewrite known_accuracies_flat_map.
    destruct (known_accuracies hist (r :: rs)); reflexivity.
  - intros rec Hn.
    assert (Hr : source_accuracy hist rec = None)
      by (unfold source_accuracy; rewrite Hn; reflexivity).
    unfold get_historical_accuracy.
    rewrite !known_accuracies_flat_map, known_accuracies_app.
    cbn [known_accuracies]. rewrite Hr, app_nil_r. reflexivity.
Qed.

(** ** The archive bound *)

(** Archiving an entry as [archive_decision] is called with its fields. *)
Definition insert_entry (da : DecisionArchive) (e : archive_entry) : DecisionArchive :=
  archive_decision da (ae_decision_id e) (ae_timestamp e) (ae_decision e) (ae_context e)
    (ae_outcome e) (ae_success e).

Definition ts_le (x y : archive_entry) : Prop := (ae_timestamp x <= ae_timestamp y)%Z.

Lemma insert_by_timestamp_perm e l : Permutation (insert_by_timestamp e l) (e :: l).
Proof.
  induction l as [|h t IH]; cbn; [reflexivity|].
  destruct (ae_timestamp e <=? ae_timestamp h)%Z; [reflexivity|].
  rewrite IH. apply perm_swap.
Qed.

Lemma sort_by_timestamp_perm l : Permutation (sort_by_timestamp l) l.
Proof.
  induction l as [|h t IH]; cbn; [reflexivity|].
  rewrite insert_by_timestamp_perm. apply perm_skip, IH.
Qed.

Lemma insert_by_timestamp_sorted e l :
  Sorted ts_le l -> Sorted ts_le (insert_by_timestamp e l).
Proof.
  induction l as [|h t IH]; intro Hs; cbn; [repeat constructor|].
  destruct (ae_timestamp e <=? ae_timestamp h)%Z eqn:E.
  - apply Z.leb_le in E. constructor; [exact Hs | constructor; exact E].
  - apply Z.leb_gt in E. inversion Hs as [|? ? Ht Hh]; subst.
    constructor; [apply IH, Ht|].
    destruct t as [|h' t']; cbn.
    + constructor. unfold ts_le. lia.
    + destruct (ae_timestamp e <=? ae_timestamp h')%Z.
      * constructor. unfold ts_le. lia.
      * inversion Hh; subst. constructor. assumption.
Qed.

Lemma sort_by_timestamp_sorted l : Sorted ts_le (sort_by_timestamp l).
Proof.
  induction l as [|h t IH]; cbn; [constructor|].
  apply insert_by_timestamp_sorted, IH.
Qed.

Lemma NoDup_app_disjoint {A} (l1 l2 : list A) x :
  NoDup (l1 ++ l2) -> In x l1 -> In x l2 -> False.
Proof.
  induction l1 as [|y l1 IH]; cbn; [tauto|].
  intros Hn [<-|Hx] H2; inversion Hn; subst.
  - apply H1. apply in_or_app. right. exact H2.
  - apply IH; assumption.
Qed.

Lemma NoDup_map_inj {A B} (f : A -> B) l x y :
  NoDup (map f l) -> In x l -> In y l -> f x = f y -> x = y.
Proof.
  induction l as [|z l IH]; cbn; [tauto|].
  intros Hn Hx Hy Hf. inversion Hn; subst.
  destruct Hx as [<-|Hx], Hy as [<-|Hy]; [reflexivity | | |].
  - exfalso. apply H1. rewrite Hf. apply in_map, Hy.
  - exfalso. apply H1. rewrite <- Hf. apply in_map, Hx.
  - apply IH; assumption.
Qed.

Lemma NoDup_map_filter {A B} (f : A -> B) p l :
  NoDup (map f l) -> NoDup (map f (filter p l)).
Proof.
  induction l as [|x l IH]; cbn; [auto|].
  intro Hn. inversion Hn; subst.
  destruct (p x); cbn; [constructor|]; auto.
  intro Hin. apply H1. apply in_map_iff in Hin as [y [Hy Hy']].
  apply filter_In in Hy' as [Hy' _]. rewrite <- Hy. apply in_map, Hy'.
Qed.

(** Deleting ids one after the other is filtering them all out. *)
Lemma del_entries_filter (K a : list archive_entry) :
  fold_left (fun acc e => del_entry (ae_decision_id e) acc) K a
  = filter (fun x => negb (existsb (String.eqb (ae_decision_id x)) (map ae_decision_id K))) a.
Proof.
  revert a. induction K as [|k K IH]; intro a; cbn.
  - induction a as [|x a IHa]; cbn; [reflexivity|]. rewrite <- IHa. reflexivity.
  - rewrite IH. unfold del_entry. clear IH.
    induction a as [|x a IHa]; cbn; [reflexivity|].
    destruct (String.eqb (ae_decision_id x) (ae_decision_id k)); cbn; [exact IHa|].
    destruct (existsb _ _); cbn; [exact IHa|]. f_equal. exact IHa.
Qed.

(** The eviction step: removing the ids of the first [k] entries of the
    sorted archive leaves the rest of the sorted list. *)
Lemma evict_spec (a : list archive_entry) k :
  NoDup (map ae_decision_id a) -> (k <= length a)%nat ->
  let S := sort_by_timestamp a in
  let a' := fold_left (fun acc e => del_entry (ae_decision_id e) acc) (firstn k S) a in
  (forall x, In x a' <-> In x (skipn k S)) /\
  length a' = (length a - k)%nat /\
  NoDup (map ae_decision_id a') /\
  incl a' a /\
  (forall x y, In x (firstn k S) -> In y (skipn k S) -> ts_le x y) /\
  (forall x, In x a <-> In x (firstn k S) \/ In x (skipn k S)) /\
  (forall x, In x (firstn k S) -> ~ In x (skipn k S)).
Proof.
  intros Hn Hk S a'.
  assert (HP : Permutation S a) by apply sort_by_timestamp_perm.
  assert (HnS : NoDup (map ae_decision_id (firstn k S ++ skipn k S))).
  { rewrite firstn_skipn. apply (Permutation_NoDup (Permutation_map _ (Permutation_sym HP))). exact Hn. }
  rewrite map_app in HnS.
  assert (Hsplit : forall x, In x a <-> In x (firstn k S) \/ In x (skipn k S)).
  { intro x. rewrite <- in_app_iff, firstn_skipn.
    split; apply Permutation_in; [apply Permutation_sym|]; exact HP. }
  assert (Hdisj : forall x y, In x (firstn k S) -> In y (skipn k S) ->
                  ae_decision_id x <> ae_decision_id y).
  { intros x y Hx Hy Heq. apply (NoDup_app_disjoint _ _ (ae_decision_id x) HnS).
    - apply in_map, Hx.
    - rewrite Heq. apply in_map, Hy. }
  assert (Hmem : forall x, In x a' <-> In x (skipn k S)).
  { intro x. unfold a'. rewrite del_entries_filter, filter_In. split.
    - intros [Hx Hk']. apply Hsplit in Hx as [Hx|Hx]; [|exact Hx].
      exfalso. apply Bool.negb_true_iff in Hk'.
      rewrite (proj2 (existsb_exists _ _)) in Hk'; [discriminate|].
      exists (ae_decision_id x). split; [apply in_map, Hx | apply String.eqb_refl].
    - intro Hx. split; [apply Hsplit; right; exact Hx|].
      apply Bool.negb_true_iff. destruct (existsb _ _) eqn:E; [|reflexivity].
      apply existsb_exists in E as [i [Hi Hi']]. apply String.eqb_eq in Hi'.
      apply in_map_iff in Hi as [y [Hy Hy']]. subst i.
      exfalso. apply (Hdisj y x Hy' Hx). symmetry. exact Hi'. }
  assert (HnA' : NoDup (map ae_decision_id a')).
  { unfold a'. rewrite del_entries_filter. apply NoDup_map_filter, Hn. }
  split; [exact Hmem|]. split.
  - assert (HPa : Permutation a' (skipn k S)).
    { apply NoDup_Permutation.
      - eapply NoDup_map_inv. exact HnA'.
      - eapply NoDup_map_inv. eapply NoDup_app_remove_l. exact HnS.
      - exact Hmem. }
    rewrite (Permutation_length HPa), length_skipn, (Permutation_length HP). reflexivity.
  - split; [exact HnA'|]. split.
    + intros x Hx. apply Hsplit. right. apply Hmem, Hx.
    + split; [|split; [exact Hsplit|]].
      * intros x y Hx Hy.
        assert (HSS : StronglySorted ts_le (firstn k S ++ skipn k S)).
        { rewrite firstn_skipn. apply Sorted_StronglySorted.
          - intros u v w. unfold ts_le. lia.
          - apply sort_by_timestamp_sorted. }
        exact (StronglySorted_app_rel _ _ _ HSS x y Hx Hy).
      * intros x Hx Hy. exact (Hdisj x x Hx Hy eq_refl).
Qed.

Lemma mk_entry_eta e :
  mk_entry (ae_decision_id e) (ae_timestamp e) (ae_decision e) (ae_context e)
    (ae_outcome e) (ae_success e) = e.
Proof. destruct e; reflexivity. Qed.

Lemma put_entry_fresh e l :
  ~ In (ae_decision_id e) (map ae_decision_id l) -> put_entry e l = l ++ [e].
Proof.
  induction l as [|h t IH]; cbn; [reflexivity|].
  intro Hn. destruct (String.eqb_spec (ae_decision_id e) (ae_decision_id h)).
  - exfalso. apply Hn. left. symmetry. assumption.
  - f_equal. apply IH. tauto.
Qed.

Lemma put_entry_present e l :
  In (ae_decision_id e) (map ae_decision_id l) ->
  map ae_decision_id (put_entry e l) = map ae_decision_id l.
Proof.
  induction l as [|h t IH]; cbn; [tauto|].
  intro Hin. destruct (String.eqb_spec (ae_decision_id e) (ae_decision_id h)) as [E|E].
  - cbn. rewrite E. reflexivity.
  - cbn. f_equal. apply IH. destruct Hin as [Hin|Hin]; [congruence | exact Hin].
Qed.

Lemma NoDup_snoc {A} (l : list A) x : ~ In x l -> NoDup l -> NoDup (l ++ [x]).
Proof.
  intros Hx Hn. apply (Permutation_NoDup (Permutation_app_comm [x] l)).
  constructor; assumption.
Qed.

Lemma put_entry_ids e l :
  NoDup (map ae_decision_id l) ->
  NoDup (map ae_decision_id (put_entry e l)) /\
  (length (put_entry e l) <= S (length l))%nat.
Proof.
  intro Hn. destruct (in_dec String.string_dec (ae_decision_id e) (map ae_decision_id l)) as [Hin|Hin].
  - rewrite <- (length_map ae_decision_id (put_entry e l)), put_entry_present by exact Hin.
    rewrite length_map. split; [exact Hn | lia].
  - rewrite put_entry_fresh by exact Hin. rewrite map_app, length_app. cbn.
    split; [apply NoDup_snoc; assumption | lia].
Qed.

Lemma insert_entry_archives da e :
  max_size (insert_entry da e) = max_size da /\
  archives (insert_entry da e) =
    let a := put_entry e (archives da) in
    if (max_size da <? length a)%nat then
      fold_left (fun acc e => del_entry (ae_decision_id e) acc)
        (firstn (length a - max_size da) (sort_by_timestamp a)) a
    else a.
Proof.
  unfold insert_entry, archive_decision. rewrite mk_entry_eta. split; reflexivity.
Qed.

(** One insert keeps the archive within its bound. *)
Lemma insert_entry_bounded da e :
  NoDup (map ae_decision_id (archives da)) -> (length (archives da) <= max_size da)%nat ->
  NoDup (map ae_decision_id (archives (insert_entry da e))) /\
  (length (archives (insert_entry da e)) <= max_size (insert_entry da e))%nat.
Proof.
  intros Hn Hl. destruct (insert_entry_archives da e) as [-> ->]. cbv zeta.
  destruct (put_entry_ids e _ Hn) as [Hn' Hl'].
  destruct (max_size da <? length (put_entry e (archives da)))%nat eqn:E.
  - apply Nat.ltb_lt in E.
    destruct (evict_spec (put_entry e (archives da))
                (length (put_entry e (archives da)) - max_size da) Hn' ltac:(lia))
      as [_ [HL [HN _]]].
    split; [exact HN | rewrite HL; lia].
  - apply Nat.ltb_ge in E. split; assumption.
Qed.

Definition archive_inv (n : nat) (ins a : list archive_entry) : Prop :=
  NoDup (map ae_decision_id a) /\ incl a ins /\ length a = Nat.min n (length ins) /\
  (forall x y, In x ins -> ~ In x a -> In y a -> ts_le x y).

(** One insert of a fresh id keeps the archive the most recent entries. *)
Lemma insert_entry_inv da pre e :
  archive_inv (max_size da) pre (archives da) ->
  NoDup (map ae_decision_id (pre ++ [e])) ->
  archive_inv (max_size da) (pre ++ [e]) (archives (insert_entry da e)).
Proof.
  intros [Hn [Hincl [Hlen Hev]]] Hfresh.
  set (n := max_size da) in *. set (a0 := archives da) in *.
  rewrite map_app in Hfresh. cbn in Hfresh.
  assert (Hpre : NoDup (map ae_decision_id pre)) by (eapply NoDup_app_remove_r; exact Hfresh).
  assert (He : ~ In (ae_decision_id e) (map ae_decision_id pre)).
  { intro Hin. apply (NoDup_app_disjoint _ _ _ Hfresh Hin). left. reflexivity. }
  assert (He0 : ~ In (ae_decision_id e) (map ae_decision_id a0)).
  { intro Hin. apply He. apply in_map_iff in Hin as [y [Hy Hy']].
    rewrite <- Hy. apply in_map, Hincl, Hy'. }
  assert (Hfull : forall x, In x pre -> ~ In x a0 -> length a0 = n).
  { intros x Hx Hx0. destruct (Nat.min_spec n (length pre)) as [[Hm Hm']|[Hm Hm']];
      rewrite Hm' in Hlen; [lia|].
    exfalso. apply Hx0.
    apply (NoDup_length_incl (l' := pre) (NoDup_map_inv _ _ Hn)); [lia | exact Hincl | exact Hx]. }
  destruct (insert_entry_archives da e) as [_ ->]. cbv zeta. fold a0 n.
  rewrite (put_entry_fresh e a0 He0).
  assert (Hn' : NoDup (map ae_decision_id (a0 ++ [e])))
    by (rewrite map_app; apply NoDup_snoc; assumption).
  assert (Hinc0 : incl (a0 ++ [e]) (pre ++ [e])).
  { intros x Hx. apply in_app_or in Hx as [Hx|Hx]; apply in_or_app;
      [left; apply Hincl, Hx | right; exact Hx]. }
  destruct (n <? length (a0 ++ [e]))%nat eqn:E.
  - apply Nat.ltb_lt in E.
    destruct (evict_spec (a0 ++ [e]) (length (a0 ++ [e]) - n) Hn' ltac:(lia))
      as [Hmem [HL [HN [Hinc [Hord [Hsplit Hdisj]]]]]].
    set (S := sort_by_timestamp (a0 ++ [e])) in *.
    set (k := (length (a0 ++ [e]) - n)%nat) in *.
    set (a' := fold_left _ (firstn k S) (a0 ++ [e])) in *.
    assert (Hl0 : length a0 = n) by (rewrite length_app in E; cbn in E; lia).
    split; [exact HN|]. split; [|split].
    + intros x Hx. apply Hinc0, Hinc, Hx.
    + rewrite HL. unfold k. rewrite !length_app. cbn. lia.
    + intros x y Hx Hx' Hy.
      assert (HyR : In y (skipn k S)) by (apply Hmem, Hy).
      destruct (in_dec String.string_dec (ae_decision_id x) (map ae_decision_id (a0 ++ [e])))
        as [Hid|Hid].
      * apply in_map_iff in Hid as [z [Hz Hz']].
        assert (Hxz : z = x).
        { apply (NoDup_map_inj ae_decision_id (pre ++ [e]));
            [rewrite map_app; exact Hfresh | apply Hinc0, Hz' | exact Hx | exact Hz]. }
        subst z. apply Hsplit in Hz' as [HxK|HxR].
        -- exact (Hord x y HxK HyR).
        -- exfalso. apply Hx'. apply Hmem, HxR.
      * assert (Hxa : ~ In x (a0 ++ [e])) by (intro Hxa; apply Hid, in_map, Hxa).
        assert (Hxpre : In x pre).
        { apply in_app_or in Hx as [Hx|[<-|[]]]; [exact Hx|].
          exfalso. apply Hxa. apply in_or_app. right. left. reflexivity. }
        assert (Hx0 : ~ In x a0) by (intro; apply Hxa, in_or_app; left; assumption).
        apply Hinc in Hy. apply in_app_or in Hy as [Hy|[<-|[]]].
        -- exact (Hev x y Hxpre Hx0 Hy).
        -- destruct (firstn k S) as [|w K] eqn:HK.
           ++ exfalso. assert (Hk0 : length (firstn k S) = 0%nat) by (rewrite HK; reflexivity).
              rewrite length_firstn in Hk0.
              assert (HS : length S = length (a0 ++ [e]))
                by (apply Permutation_length, sort_by_timestamp_perm).
              lia.
           ++ assert (Hw : In w (a0 ++ [e])) by (apply Hsplit; left; left; reflexivity).
              apply in_app_or in Hw as [Hw|[Hw|[]]].
              ** apply (Z.le_trans _ (ae_timestamp w)).
                 --- exact (Hev x w Hxpre Hx0 Hw).
                 --- apply Hord; [left; reflexivity | exact HyR].
              ** subst w. exfalso. apply (Hdisj e); [left; reflexivity | exact HyR].
  - apply Nat.ltb_ge in E.
    split; [exact Hn'|]. split; [exact Hinc0|]. split.
    + rewrite !length_app in *. cbn in *. lia.
    + intros x y Hx Hx' Hy. exfalso.
      assert (Hxpre : In x pre).
      { apply in_app_or in Hx as [Hx|[<-|[]]]; [exact Hx|].
        exfalso. apply Hx'. apply in_or_app. right. left. reflexivity. }
      assert (Hx0 : ~ In x a0) by (intro; apply Hx', in_or_app; left; assumption).
      specialize (Hfull x Hxpre Hx0). rewrite length_app in E. cbn in E. lia.
Qed.

Lemma fold_insert_max_size ins da :
  max_size (fold_left insert_entry ins da) = max_size da.
Proof.
  revert da. induction ins as [|e ins IH]; intro da; [reflexivity|].
  cbn. rewrite IH. apply insert_entry_archives.
Qed.

Lemma fold_insert_bounded ins da :
  NoDup (map ae_decision_id (archives da)) -> (length (archives da) <= max_size da)%nat ->
  (length (archives (fold_left insert_entry ins da)) <= max_size da)%nat.
Proof.
  revert da. induction ins as [|e ins IH]; intros da Hn Hl; [exact Hl|].
  cbn. destruct (insert_entry_bounded da e Hn Hl) as [Hn' Hl'].
  rewrite <- (proj1 (insert_entry_archives da e)). apply IH; assumption.
Qed.

Lemma fold_insert_inv n ins :
  NoDup (map ae_decision_id ins) ->
  archive_inv n ins (archives (fold_left insert_entry ins (mk_archive n [] []))).
Proof.
  induction ins as [|e ins IH] using rev_ind; intro Hn.
  - cbn. split; [constructor|]. split; [intros ? []|]. split; [cbn; lia|].
    intros ? ? [].
  - rewrite fold_left_app. cbn [fold_left].
    rewrite <- (fold_insert_max_size ins (mk_archive n [] [])) at 1.
    apply insert_entry_inv; [|exact Hn].
    rewrite fold_insert_max_size. apply IH.
    rewrite map_app in Hn. eapply NoDup_app_remove_r. exact Hn.
Qed.

(** C6: starting from an empty archive of bound [n], after any sequence of
    inserts the archive holds at most [n] entries. When the inserted ids
    are distinct, it holds exactly [min n (number of inserts)] of the
    inserted entries: [n] of them after [n + k] inserts. Every entry
    inserted and then evicted has a timestamp no later than that of any
    surviving entry, so the survivors are the most recent ones. *)
Theorem archive_bound_and_eviction n ins :
  let a := archives (fold_left insert_entry ins (mk_archive n [] [])) in
  (length a <= n)%nat /\
  (NoDup (map ae_decision_id ins) ->
     length a = Nat.min n (length ins) /\
     incl a ins /\
     (forall x y, In x ins -> ~ In x a -> In y a ->
        (ae_timestamp x <= ae_timestamp y)%Z)).
Proof.
  cbv zeta. split.
  - apply (fold_insert_bounded ins (mk_archive n [] [])); [constructor | cbn; lia].
  - intro Hn. destruct (fold_insert_inv n ins Hn) as [_ [Hincl [Hlen Hev]]].
    split; [exact Hlen|]. split; [exact Hincl|]. exact Hev.
Qed.

Definition c6_entry (id : string) (ts : Z) : archive_entry :=
  mk_entry id ts empty_decision scenario_event None None.

(** Bound 2, three inserts: the entry with the oldest timestamp goes. *)
Example archive_eviction_example :
  archives (fold_left insert_entry [c6_entry "a" 5; c6_entry "b" 1; c6_entry "c" 3]
              (mk_archive 2 [] []))
  = [c6_entry "a" 5; c6_entry "c" 3].
Proof. vm_compute. reflexivity. Qed.

(** ** Scale actions *)









Lemma dget_dset_eq {V} k (v : V) p : dget k (dset k v p) = Some v.
Proof.
  induction p as [|[k' v'] p IH]; cbn; [rewrite String.eqb_refl; reflexivity|].
  destruct (String.eqb_spec k k') as [->|E]; cbn.
  - rewrite String.eqb_refl. reflexivity.
  - apply String.eqb_neq in E. rewrite E. exact IH.
Qed.

Lemma dget_dset_neq {V} k k' (v : V) p :
  k <> k' -> dget k (dset k' v p) = dget k p.
Proof.
  intro Hk. apply String.eqb_neq in Hk.
  induction p as [|[k'' v'] p IH]; cbn; [rewrite Hk; reflexivity|].
  destruct (String.eqb k' k'') eqn:E; cbn.
  - apply String.eqb_eq in E. subst k''. rewrite Hk. reflexivity.
  - rewrite IH. reflexivity.
Qed.


















(** Scenario C with an ["action"] key among the parameters. *)
Definition c1_override_decision (confidence : option Q) : decision :=
  mk_decision (Some (PStr "delete_service"))
    (Some [("action", PStr "restart_pod"); ("resource_name", PStr "prod-database-backup")])
    confidence None None None None None None None.

(** Scenario C as the spec writes it. *)
Definition c1_scenario_decision (confidence : option Q) : decision :=
  mk_decision (Some (PStr "delete_service"))
    (Some [("resource_name", PStr "prod-database-backup")])
    confidence None None None None None None None.

(** C1: [{"action": action, **action_params}] lets an ["action"] key of the
    parameters replace the action. A [delete_service] of the protected
    resource ["prod-database-backup"] whose parameters also carry
    [action = "restart_pod"] leaves [apply_safety_checks] as ["restart_pod"]
    (with [safety_corrected = true]), not ["do_nothing"], for every input
    confidence, context and unsafe-pattern test; without that key the same
    decision becomes ["do_nothing"]. *)
Theorem apply_safety_checks_params_override u context confidence :
  is_deletion_action "delete_service" = true /\
  any_protected default_safety_layer (lower "prod-database-backup") = true /\
  (exists s, apply_safety_checks u default_safety_layer
               (c1_override_decision confidence) context = Ok s /\
     d_action s = Some (PStr "restart_pod") /\ d_safety_corrected s = Some true) /\
  (exists s, apply_safety_checks u default_safety_layer
               (c1_scenario_decision confidence) context = Ok s /\
     d_action s = Some (PStr "do_nothing") /\ d_safety_corrected s = Some true).
Proof.
  split; [vm_compute; reflexivity|].
  split; [vm_compute; reflexivity|].
  split; (eexists; split; [vm_compute; reflexivity | split; reflexivity]).
Qed.

(** An [llm] result recommending [delete_pod] with confidence 0.9. *)
Definition c2_intel : intelligence :=
  mk_intel None (Some (mk_llm (Some (PStr "delete_pod")) (Some (9#10)))) None None.

Definition c2_decision (confidence : option Q) : decision :=
  mk_decision (Some (PStr "delete_pod")) None confidence None None None None None None None.

(** C2: an action outside the allow-list is not forced to ["do_nothing"].
    [sanitize_output] takes the corrected action from
    [corrected.get("action", "do_nothing")], which holds the rejected action
    itself: [apply_safety_checks] returns ["delete_pod"] (flagged
    [safety_corrected = true]), and [process_event] dispatches it with
    status ["executed"]. *)
Theorem disallowed_action_not_replaced u sqrt context confidence :
  mem "delete_pod" (allowed_actions default_safety_layer) = false /\
  (exists s, apply_safety_checks u default_safety_layer (c2_decision confidence) context = Ok s /\
     d_action s = Some (PStr "delete_pod") /\ d_safety_corrected s = Some true) /\
  (exists r o', process_event sqrt u scenario_orchestrator scenario_event c2_intel 1 2 3 [] = Ok (r, o') /\
     d_action (pr_decision r) = Some (PStr "delete_pod") /\
     ex_action (pr_execution_result r) = Some (PStr "delete_pod") /\
     ex_status (pr_execution_result r) = "executed").
Proof.
  split; [vm_compute; reflexivity|].
  split; [eexists; split; [vm_compute; reflexivity | split; reflexivity]|].
  eexists _, _. split; [vm_compute; reflexivity|]. split; [|split]; reflexivity.
Qed.

From Stdlib Require Import Lqa Psatz.

(** * Properties of the rest of the code *)

(** ** Safety layer *)

Ltac split_result H :=
  repeat (cbn [bind] in H;
    match type of H with
    | context [if ?b then _ else _] => let E := fresh "E" in destruct b eqn:E
    | context [match ?x with Some _ => _ | None => _ end] =>
        let E := fresh "E" in destruct x eqn:E
    | context [match ?x with PInt _ => _ | PStr _ => _ end] =>
        let E := fresh "E" in destruct x eqn:E
    end); try discriminate H.

Lemma validate_action_rejected_message u sl action po c m :
  validate_action u sl action po = Ok (false, m, c) -> exists s, m = Some s.
Proof.
  unfold validate_action. intro H.
  destruct action as [z|a]; [cbn in H; injection H as <- _; eexists; reflexivity|].
  destruct (mem a (allowed_actions sl)); cbn [negb] in H;
    [|injection H as <- _; eexists; reflexivity].
  split_result H; injection H as <- _; eexists; reflexivity.
Qed.

(** The facts an approval of [validate_action] rests on. *)
Lemma validate_action_approved u sl action po msg c :
  validate_action u sl action po = Ok (true, msg, c) ->
  exists a, action = PStr a /\ msg = None /\
    mem a (allowed_actions sl) = true /\ mem a (dangerous_actions sl) = false /\
    u (dflt [] po) = false /\
    (is_deletion_action a = true ->
       any_protected sl (lower (match dget "resource_name" (dflt [] po) with
                                | Some (PStr r) => r
                                | _ => EmptyString
                                end)) = false) /\
    (contains "scale" a = true ->
       exists t, match dget "target_replicas" (dflt [] po) with
                 | Some v => v
                 | None => match dget "replicas" (dflt [] po) with
                           | Some v => v
                           | None => PInt 0
                           end
                 end = PInt t /\ (min_replicas sl <= t <= max_replicas sl)%Z).
Proof.
  unfold validate_action. intro H.
  replace (dflt [] po) with (match po with Some p => p | None => [] end)
    by (destruct po; reflexivity).
  set (params := match po with Some p => p | None => [] end) in *.
  destruct action as [z|a]; [cbn in H; discriminate H|].
  exists a. split; [reflexivity|].
  destruct (mem a (allowed_actions sl)) eqn:Ha; cbn [negb] in H; [|discriminate H].
  split_result H; injection H as <- <-;
    repeat split; try reflexivity; try assumption; try (intro; congruence);
    try (intros _; eexists; split; [reflexivity|]; lia).
  all: intros _; exact E4.
Qed.

(** X1. [validate_action] approves only a string action that is allowed and
    not dangerous, whose parameters hold no unsafe pattern and that deletes
    no protected resource; an approval carries no error message. For a
    scaling action the target (the [target_replicas] entry, else
    [replicas], else 0) is not a string (comparing one raises), and an
    integer target lies within [min_replicas, max_replicas]. *)
Theorem validate_action_approval u sl action po msg c :
  validate_action u sl action po = Ok (true, msg, c) ->
  exists a, action = PStr a /\ msg = None /\
    mem a (allowed_actions sl) = true /\ mem a (dangerous_actions sl) = false /\
    u (dflt [] po) = false /\
    (is_deletion_action a = true ->
       any_protected sl (lower (match dget "resource_name" (dflt [] po) with
                                | Some (PStr r) => r
                                | _ => EmptyString
                                end)) = false) /\
    (contains "scale" a = true ->
       let target := match dget "target_replicas" (dflt [] po) with
                     | Some v => v
                     | None => match dget "replicas" (dflt [] po) with
                               | Some v => v
                               | None => PInt 0
                               end
                     end in
       (forall r, target <> PStr r) /\
       (forall t, target = PInt t -> (min_replicas sl <= t <= max_replicas sl)%Z)).
Proof.
  intro H.
  destruct (validate_action_approved u sl action po msg c H)
    as (a & Ha & Hm & Hal & Hd & Hu & Hdel & Hsc).
  exists a. do 6 (split; [assumption|]).
  intros Hs. destruct (Hsc Hs) as (t0 & Ht0 & Hr). cbv zeta. rewrite Ht0.
  split; [intros r; discriminate|].
  intros t Ht. injection Ht as <-. exact Hr.
Qed.

Lemma dflt_match {A} (d : A) o : match o with Some x => x | None => d end = dflt d o.
Proof. destruct o; reflexivity. Qed.

Lemma check_scaling_limits_of_target sl a p t :
  contains "scale" a = true ->
  match dget "target_replicas" p with
  | Some v => v
  | None => match dget "replicas" p with Some v => v | None => PInt 0 end
  end = PInt t ->
  (min_replicas sl <= t <= max_replicas sl)%Z ->
  check_scaling_limits sl a p = Ok true.
Proof.
  intros Hc Ht Hr. unfold check_scaling_limits. rewrite Hc. cbn [negb]. rewrite Ht.
  f_equal. apply andb_true_iff; split; apply Z.leb_le; lia.
Qed.

(** X2. A safety report that marks the decision safe carries no error
    message and no corrected action, and its [allowed_action] and
    [scaling_within_limits] checks both hold; a report that marks it unsafe
    carries an error message and a corrected action. *)
Theorem get_safety_report_consistent u sl pp ud d ctx r :
  get_safety_report u sl pp ud d ctx = Ok r ->
  (rep_is_safe r = true ->
     rep_error_message r = None /\ rep_corrected_action r = None /\
     rep_allowed_action r = true /\ rep_scaling_within_limits r = true) /\
  (rep_is_safe r = false ->
     exists m c, rep_error_message r = Some m /\ rep_corrected_action r = Some c).
Proof.
  unfold get_safety_report.
  rewrite !dflt_match.
  intro H.
  destruct (validate_action u sl (dflt (PStr EmptyString) (d_action d)) (d_action_params d))
    as [[[b m] c]|e] eqn:Hv; cbn [bind] in H; [|discriminate H].
  destruct (dflt (PStr EmptyString) (d_action d)) as [z|a] eqn:Ea; [cbn in H; discriminate H|].
  match type of H with context [check_scaling_limits ?x ?y ?z] =>
    destruct (check_scaling_limits x y z) as [sc|e] eqn:Hs end;
    cbn [bind] in H; [|discriminate H].
  injection H as <-. cbn [rep_is_safe rep_error_message rep_corrected_action
    rep_allowed_action rep_scaling_within_limits].
  split; intro Hb; subst b.
  - apply validate_action_approved in Hv.
    destruct Hv as (a' & Ha' & -> & Hal & _ & _ & _ & Hsc). injection Ha' as <-.
    repeat split; try assumption.
    destruct (contains "scale" a) eqn:Ec.
    + destruct (Hsc eq_refl) as (t & Ht & Hr).
      pose proof (check_scaling_limits_of_target sl a _ t Ec Ht Hr) as Hc.
      assert (Ok sc = Ok true) as Hsc' by (rewrite <- Hs; exact Hc).
      injection Hsc' as ->; reflexivity.
    + unfold check_scaling_limits in Hs. rewrite Ec in Hs. injection Hs as <-. reflexivity.
  - apply validate_action_rejected_message in Hv as [s ->].
    eexists _, _; split; reflexivity.
Qed.

Lemma string_length_append (s1 s2 : string) :
  String.length (s1 ++ s2) = (String.length s1 + String.length s2)%nat.
Proof. induction s1 as [|c s1 IH]; cbn; [reflexivity|]. rewrite IH. reflexivity. Qed.

Lemma substring_0_length n (s : string) :
  (n <= String.length s)%nat -> String.length (substring 0 n s) = n.
Proof.
  revert s. induction n as [|n IH]; intros s Hn; [destruct s; reflexivity|].
  destruct s as [|c s]; cbn in *; [lia|]. f_equal. apply IH. lia.
Qed.

Lemma substring_0_append n (s1 s2 : string) :
  String.length s1 = n -> substring 0 n (s1 ++ s2) = s1.
Proof.
  revert n. induction s1 as [|c s1 IH]; intros n Hn; cbn in *; subst n; cbn.
  - destruct s2; reflexivity.
  - rewrite IH by reflexivity. reflexivity.
Qed.

(** X3. [_sanitize_text] on a [str] returns at most 2003 characters: the
    text after the unsafe patterns are replaced by ["[REMOVED]"] is returned
    as it is when it has at most 2000 characters, and otherwise cut to its
    first 2000 characters followed by ["..."]. A value that is not a [str]
    is returned as its printed form [str(text)], with no length bound. *)
Theorem sanitize_text_bounded f text :
  (String.length (sanitize_text f (TStr text)) <= 2003)%nat /\
  ((String.length (f text) <= 2000)%nat -> sanitize_text f (TStr text) = f text) /\
  ((2000 < String.length (f text))%nat ->
     String.length (sanitize_text f (TStr text)) = 2003%nat /\
     substring 0 2000 (sanitize_text f (TStr text)) = substring 0 2000 (f text)) /\
  (forall printed, sanitize_text f (TOther printed) = printed).
Proof.
  unfold sanitize_text.
  split; [|split; [|split]]; [..|reflexivity]; revert f text; intros f text;
  (destruct (Nat.ltb_spec 2000 (String.length (f text))) as [Hl|Hl];
   [assert (Hs : String.length (substring 0 2000 (f text)) = 2000%nat)
      by (apply substring_0_length; lia)|]).
  - rewrite string_length_append, Hs. cbn [String.length]. lia.
  - lia.
  - lia.
  - reflexivity.
  - intros _. rewrite string_length_append, Hs. cbn [String.length].
    split; [reflexivity|]. apply substring_0_append. exact Hs.
  - lia.
Qed.

(** ** Router *)

(** X4. The supporting agents of an event are pairwise distinct, never
    include the agent [route_event] sends the event to, and include the
    monitoring agent unless the event is an anomaly (routed to monitoring
    itself). *)
Theorem get_supporting_agents_distinct ev resource_mentioned :
  NoDup (get_supporting_agents ev resource_mentioned) /\
  ~ In (rt_target_agent (route_event ev)) (get_supporting_agents ev resource_mentioned) /\
  (classify_event ev <> EventType.ANOMALY ->
     In (AgentType.value AgentType.MONITORING_AGENT)
        (get_supporting_agents ev resource_mentioned)).
Proof.
  unfold get_supporting_agents, route_event.
  destruct (classify_event ev);
    destruct (match ev_severity ev with Some s => mem s ["high"; "critical"] | None => false end);
    destruct resource_mentioned; cbn;
    (split; [repeat constructor; cbn; intuition congruence|]);
    (split; [cbn; intuition congruence|]);
    intro Hne; cbn; intuition congruence.
Qed.

Lemma event_type_eqb_true a b : event_type_eqb a b = true <-> a = b.
Proof. destruct a, b; cbn; split; congruence. Qed.

Lemma agent_eqb_true a b : agent_eqb a b = true <-> a = b.
Proof. destruct a, b; cbn; split; congruence. Qed.

Lemma perf_key_eqb_true x y : perf_key_eqb x y = true <-> x = y.
Proof.
  destruct x as [e a], y as [e' a']. unfold perf_key_eqb. cbn [fst snd].
  rewrite andb_true_iff, event_type_eqb_true, agent_eqb_true.
  split; [intros [-> ->]; reflexivity | intro H; injection H as -> ->; split; reflexivity].
Qed.

Lemma perf_get_set_eq k v d : perf_get k (perf_set k v d) = Some v.
Proof.
  induction d as [|[k' v'] d IH]; cbn.
  - destruct (perf_key_eqb k k) eqn:E; [reflexivity|].
    exfalso. assert (k = k) as Hk by reflexivity. apply perf_key_eqb_true in Hk. congruence.
  - destruct (perf_key_eqb k k') eqn:E; cbn; rewrite ?E; [reflexivity|exact IH].
Qed.

Lemma perf_get_set_neq k k' v d : k' <> k -> perf_get k' (perf_set k v d) = perf_get k' d.
Proof.
  intro Hne. induction d as [|[k0 v0] d IH]; cbn.
  - destruct (perf_key_eqb k' k) eqn:E; [apply perf_key_eqb_true in E; congruence|reflexivity].
  - destruct (perf_key_eqb k k0) eqn:E; cbn.
    + apply perf_key_eqb_true in E. subst k0.
      destruct (perf_key_eqb k' k) eqn:E'; [apply perf_key_eqb_true in E'; congruence|reflexivity].
    + destruct (perf_key_eqb k' k0); [reflexivity|exact IH].
Qed.

Lemma perf_get_In k d v : perf_get k d = Some v -> In (k, v) d.
Proof.
  induction d as [|[k' v'] d IH]; cbn; [discriminate|].
  destruct (perf_key_eqb k k') eqn:E.
  - intro H. injection H as <-. apply perf_key_eqb_true in E. subst. left; reflexivity.
  - intro H. right. exact (IH H).
Qed.

Lemma perf_set_Forall (P : performance -> Prop) k v d :
  Forall (fun kv => P (snd kv)) d -> P v -> Forall (fun kv => P (snd kv)) (perf_set k v d).
Proof.
  intros Hd Hv. induction Hd as [|[k' v'] d Hh Ht IH]; cbn.
  - constructor; [exact Hv|constructor].
  - destruct (perf_key_eqb k k'); constructor; cbn; auto.
Qed.

(** [perf["count"]] is the number of recorded outcomes, split into
    successes and failures. *)
Definition perf_consistent (p : performance) : Prop :=
  (0 <= perf_successes p)%Z /\ (0 <= perf_failures p)%Z /\
  perf_count p = (perf_successes p + perf_failures p)%Z.

(** X5. [update_routing_performance] adds one outcome to the entry of its
    (event type, agent) pair, as one more success or one more failure,
    leaves every other pair's entry as it was, and keeps every entry's count
    equal to its successes plus its failures. *)
Theorem update_routing_performance_counts ap et ag success :
  let old := match perf_get (et, ag) ap with
             | Some p => p
             | None => mk_performance 0 0 0
             end in
  perf_get (et, ag) (update_routing_performance ap et ag success) =
    Some (mk_performance (perf_successes old + if success then 1 else 0)
                         (perf_failures old + if success then 0 else 1)
                         (perf_count old + 1)) /\
  (forall k, k <> (et, ag) ->
     perf_get k (update_routing_performance ap et ag success) = perf_get k ap) /\
  (Forall (fun kv => perf_consistent (snd kv)) ap ->
   Forall (fun kv => perf_consistent (snd kv)) (update_routing_performance ap et ag success)).
Proof.
  cbv zeta. unfold update_routing_performance.
  split; [|split].
  - rewrite perf_get_set_eq. destruct success; f_equal; f_equal; ring.
  - intros k Hk. apply perf_get_set_neq. exact Hk.
  - intro H. apply perf_set_Forall; [exact H|].
    assert (Hold : perf_consistent (match perf_get (et, ag) ap with
                                   | Some p => p | None => mk_performance 0 0 0 end)).
    { destruct (perf_get (et, ag) ap) as [p|] eqn:E.
      - apply perf_get_In in E. rewrite Forall_forall in H. exact (H _ E).
      - unfold perf_consistent; cbn; lia. }
    revert Hold.
    destruct (match perf_get (et, ag) ap with Some p => p | None => mk_performance 0 0 0 end)
      as [s f c].
    unfold perf_consistent; cbn; destruct success; lia.
Qed.

(** The success rate [perf["successes"] / perf["count"]]. *)
Definition success_rate (p : performance) : Q :=
  inject_Z (perf_successes p) / inject_Z (perf_count p).

Lemma best_performer_spec ap et a0 s0 :
  let F := fold_left (fun (acc : AgentType.t * Q) (kv : EventType.t * AgentType.t * performance) =>
    let '(best_agent, best_score) := acc in
    let '((et', agent), perf) := kv in
    if event_type_eqb et' et && (0 <? perf_count perf)%Z then
      let rate := inject_Z (perf_successes perf) / inject_Z (perf_count perf) in
      if qltb best_score rate then (agent, rate) else (best_agent, best_score)
    else (best_agent, best_score)) ap (a0, s0) in
  (F = (a0, s0) \/
   exists ag p, In ((et, ag), p) ap /\ (0 < perf_count p)%Z /\ F = (ag, success_rate p)) /\
  (s0 <= snd F)%Q /\
  (forall ag p, In ((et, ag), p) ap -> (0 < perf_count p)%Z -> (success_rate p <= snd F)%Q).
Proof.
  cbv zeta. revert a0 s0.
  induction ap as [|[[et' ag'] p'] ap IH]; intros a0 s0; cbn [fold_left].
  - split; [left; reflexivity|]. split; [apply Qle_refl|]. intros ? ? [].
  - destruct (event_type_eqb et' et && (0 <? perf_count p')%Z) eqn:Ec.
    + apply andb_true_iff in Ec as [Ee Ecnt].
      apply event_type_eqb_true in Ee. subst et'. apply Z.ltb_lt in Ecnt.
      destruct (qltb s0 (inject_Z (perf_successes p') / inject_Z (perf_count p'))) eqn:Eq.
      * apply qltb_true in Eq.
        destruct (IH ag' (inject_Z (perf_successes p') / inject_Z (perf_count p')))
          as [Hf [Hs Hall]].
        split; [|split].
        -- right. destruct Hf as [Hf|(ag & p & Hin & Hc & Hf)].
           ++ exists ag', p'. split; [left; reflexivity|]. split; [exact Ecnt|exact Hf].
           ++ exists ag, p. split; [right; exact Hin|]. split; [exact Hc|exact Hf].
        -- apply Qle_trans with (2 := Hs). apply Qlt_le_weak. exact Eq.
        -- intros ag p [Hin|Hin] Hc; [|exact (Hall ag p Hin Hc)].
           injection Hin; intros; subst. exact Hs.
      * apply qltb_false in Eq.
        destruct (IH a0 s0) as [Hf [Hs Hall]].
        split; [|split].
        -- destruct Hf as [Hf|(ag & p & Hin & Hc & Hf)]; [left; exact Hf|].
           right. exists ag, p. split; [right; exact Hin|]. split; [exact Hc|exact Hf].
        -- exact Hs.
        -- intros ag p [Hin|Hin] Hc; [|exact (Hall ag p Hin Hc)].
           injection Hin; intros; subst. apply Qle_trans with (1 := Eq). exact Hs.
    + destruct (IH a0 s0) as [Hf [Hs Hall]].
      split; [|split].
      * destruct Hf as [Hf|(ag & p & Hin & Hc & Hf)]; [left; exact Hf|].
        right. exists ag, p. split; [right; exact Hin|]. split; [exact Hc|exact Hf].
      * exact Hs.
      * intros ag p [Hin|Hin] Hc; [|exact (Hall ag p Hin Hc)].
        injection Hin; intros; subst.
        rewrite (proj2 (event_type_eqb_true _ _) eq_refl) in Ec.
        apply Z.ltb_lt in Hc. rewrite Hc in Ec. discriminate Ec.
Qed.

Lemma best_performer_uncounted ap et a0 s0 :
  (forall k p, In (k, p) ap -> fst k = et -> (perf_count p <= 0)%Z) ->
  fold_left (fun (acc : AgentType.t * Q) (kv : EventType.t * AgentType.t * performance) =>
    let '(best_agent, best_score) := acc in
    let '((et', agent), perf) := kv in
    if event_type_eqb et' et && (0 <? perf_count perf)%Z then
      let rate := inject_Z (perf_successes perf) / inject_Z (perf_count perf) in
      if qltb best_score rate then (agent, rate) else (best_agent, best_score)
    else (best_agent, best_score)) ap (a0, s0) = (a0, s0).
Proof.
  induction ap as [|[[et' ag'] p'] ap IH]; intro H; cbn [fold_left]; [reflexivity|].
  destruct (event_type_eqb et' et && (0 <? perf_count p')%Z) eqn:Ec.
  - apply andb_true_iff in Ec as [Ee Ecnt].
    apply event_type_eqb_true in Ee. apply Z.ltb_lt in Ecnt.
    specialize (H (et', ag') p' (or_introl eq_refl) Ee). lia.
  - apply IH. intros k p Hin. apply H. right. exact Hin.
Qed.

Lemma route_event_default ev :
  route_event ev =
  mk_routing (EventType.value (classify_event ev))
    (AgentType.value (match routing_map (classify_event ev) with
                      | Some a => a
                      | None => AgentType.SELF_HEALING_AGENT
                      end))
    (match classify_event ev with EventType.UNKNOWN => 1#2 | _ => 1 end).
Proof. unfold route_event. destruct (classify_event ev); reflexivity. Qed.

(** X6. With no recorded outcome for the event's type, the adaptive router
    routes exactly as [route_event]. When it departs from the default agent,
    it sends the event to an agent with recorded outcomes for that event
    type, whose success rate is the routing confidence, exceeds 0.7, and is
    the highest success rate recorded for that event type. *)
Theorem adaptive_route_event_spec ap ev :
  ((forall k p, In (k, p) ap -> fst k = classify_event ev -> (perf_count p <= 0)%Z) ->
   adaptive_route_event ap ev = route_event ev) /\
  (rt_target_agent (adaptive_route_event ap ev) <> rt_target_agent (route_event ev) ->
   exists ag p, In ((classify_event ev, ag), p) ap /\ (0 < perf_count p)%Z /\
     rt_target_agent (adaptive_route_event ap ev) = AgentType.value ag /\
     rt_routing_confidence (adaptive_route_event ap ev) = success_rate p /\
     (7#10 < rt_routing_confidence (adaptive_route_event ap ev))%Q /\
     forall ag' p', In ((classify_event ev, ag'), p') ap -> (0 < perf_count p')%Z ->
       (success_rate p' <= rt_routing_confidence (adaptive_route_event ap ev))%Q).
Proof.
  rewrite route_event_default. unfold adaptive_route_event, best_performer.
  set (et := classify_event ev).
  set (dft := match routing_map et with Some a => a | None => AgentType.SELF_HEALING_AGENT end).
  split.
  - intro H. rewrite best_performer_uncounted by exact H. reflexivity.
  - pose proof (best_performer_spec ap et dft 0) as [Hf [_ Hall]]. cbv zeta in Hf, Hall.
    revert Hf Hall.
    match goal with |- context [fold_left ?f ap (dft, 0)] =>
      destruct (fold_left f ap (dft, 0)) as [ba bs] end.
    intros Hf Hall.
    destruct (qltb (7#10) bs && negb (agent_eqb ba dft)) eqn:Eb;
      cbn [rt_target_agent rt_routing_confidence]; [|intro Hne; contradiction Hne; reflexivity].
    intros _. apply andb_true_iff in Eb as [Eq _]. apply qltb_true in Eq.
    destruct Hf as [Hf|(ag & p & Hin & Hc & Hf)].
    + injection Hf as _ ->. discriminate Eq.
    + injection Hf as -> ->. exists ag, p.
      repeat split; try assumption; try reflexivity.
Qed.

(** ** Confidence estimator *)

Lemma qsum_acc xs a : fold_left Qplus xs a == a + qsum xs.
Proof.
  unfold qsum. revert a. induction xs as [|x xs IH]; intro a; cbn [fold_left].
  - ring.
  - rewrite (IH (a + x)), (IH (0 + x)). ring.
Qed.

Lemma qsum_cons x xs : qsum (x :: xs) == x + qsum xs.
Proof. unfold qsum at 1. cbn [fold_left]. rewrite qsum_acc. ring. Qed.

Lemma qsum_bounds (lo hi : Q) xs :
  (forall x, In x xs -> lo <= x <= hi) ->
  lo * inject_Z (Z.of_nat (length xs)) <= qsum xs <= hi * inject_Z (Z.of_nat (length xs)).
Proof.
  induction xs as [|x xs IH]; intro H.
  - cbn. split; [rewrite Qmult_0_r|rewrite Qmult_0_r]; apply Qle_refl.
  - rewrite qsum_cons.
    replace (Z.of_nat (length (x :: xs))) with (1 + Z.of_nat (length xs))%Z
      by (cbn [length]; lia).
    rewrite inject_Z_plus.
    destruct (H x (or_introl eq_refl)) as [Hl Hh].
    destruct IH as [IHl IHh]; [intros y Hy; apply H; right; exact Hy|].
    split.
    + setoid_replace (lo * (inject_Z 1 + inject_Z (Z.of_nat (length xs))))
        with (lo + lo * inject_Z (Z.of_nat (length xs))) by (unfold inject_Z; ring).
      apply Qplus_le_compat; assumption.
    + setoid_replace (hi * (inject_Z 1 + inject_Z (Z.of_nat (length xs))))
        with (hi + hi * inject_Z (Z.of_nat (length xs))) by (unfold inject_Z; ring).
      apply Qplus_le_compat; assumption.
Qed.

Lemma div_unit (a b : Q) : 0 <= a -> a <= b -> 0 < b -> 0 <= a / b <= 1.
Proof.
  intros Ha Hab Hb. split.
  - apply Qle_shift_div_l; [exact Hb|]. rewrite Qmult_0_l. exact Ha.
  - apply Qle_shift_div_r; [exact Hb|]. rewrite Qmult_1_l. exact Hab.
Qed.

Lemma mean_unit xs :
  xs <> [] -> (forall x, In x xs -> 0 <= x <= 1) -> 0 <= mean xs <= 1.
Proof.
  intros Hne H. unfold mean.
  destruct (qsum_bounds 0 1 xs H) as [Hl Hh].
  rewrite Qmult_0_l in Hl. rewrite Qmult_1_l in Hh.
  apply div_unit; [exact Hl|exact Hh|].
  destruct xs as [|x xs]; [contradiction Hne; reflexivity|].
  unfold Qlt, inject_Z; cbn. lia.
Qed.

Lemma rate_unit (s n : Z) : (0 <= s)%Z -> (s <= n)%Z -> (0 < n)%Z ->
  0 <= inject_Z s / inject_Z n <= 1.
Proof.
  intros Hs Hsn Hn. apply div_unit; unfold Qle, Qlt, inject_Z; cbn; lia.
Qed.

Lemma dget_Forall {V} (P : V -> Prop) k v (p : list (string * V)) :
  Forall (fun kv => P (snd kv)) p -> dget k p = Some v -> P v.
Proof.
  induction 1 as [|[k' v'] p Hh Ht IH]; cbn; [discriminate|].
  destruct (String.eqb k k'); [intro H; injection H as <-; exact Hh|exact IH].
Qed.

Lemma Forall_dset {V} (P : V -> Prop) k v (p : list (string * V)) :
  Forall (fun kv => P (snd kv)) p -> P v -> Forall (fun kv => P (snd kv)) (dset k v p).
Proof.
  intros Hp Hv. induction Hp as [|[k' v'] p Hh Ht IH]; cbn.
  - constructor; [exact Hv|constructor].
  - destruct (String.eqb k k'); constructor; cbn; auto.
Qed.

(** A [component_history] entry as [update_component_performance] keeps it:
    its count splits into successes and failures, and its accumulated
    confidence lies between 0 and the count. *)
Definition record_consistent (r : component_record) : Prop :=
  (0 <= successes r)%Z /\ (0 <= failures r)%Z /\
  count r = (successes r + failures r)%Z /\
  0 <= total_confidence r /\ total_confidence r <= inject_Z (count r).

Definition ledger_consistent (h : ledger) : Prop :=
  Forall (fun kv => record_consistent (snd kv)) h.

(** X7. [update_component_performance] called with a confidence in [0, 1]
    keeps every entry of the ledger consistent: count = successes +
    failures, and 0 <= total confidence <= count. It adds one outcome to the
    named component and leaves the other components' entries unchanged. *)
Theorem update_component_performance_consistent h c success conf :
  0 <= conf <= 1 -> ledger_consistent h ->
  ledger_consistent (update_component_performance h c success conf) /\
  (exists r, dget c (update_component_performance h c success conf) = Some r /\
     count r = (dflt 0 (option_map count (dget c h)) + 1)%Z) /\
  (forall c', c' <> c ->
     dget c' (update_component_performance h c success conf) = dget c' h).
Proof.
  intros [Hc0 Hc1] Hh. unfold update_component_performance.
  split; [|split].
  - apply Forall_dset; [exact Hh|].
    assert (Hold : record_consistent (match dget c h with
                                      | Some r => r
                                      | None => mk_component_record 0 0 0 0 end)).
    { destruct (dget c h) as [r|] eqn:E; [exact (dget_Forall _ _ _ _ Hh E)|].
      unfold record_consistent; cbn. repeat split; try lia; apply Qle_refl. }
    revert Hold.
    destruct (match dget c h with Some r => r | None => mk_component_record 0 0 0 0 end)
      as [s f n t].
    unfold record_consistent; cbn [successes failures count total_confidence].
    intros (Hs & Hf & Hn & Ht0 & Ht1).
    split; [destruct success; lia|]. split; [destruct success; lia|].
    split; [destruct success; lia|]. split.
    + apply (Qplus_le_compat 0 t 0 conf) in Ht0; [|exact Hc0].
      rewrite Qplus_0_l in Ht0. exact Ht0.
    + rewrite inject_Z_plus. apply Qplus_le_compat; [exact Ht1|exact Hc1].
  - eexists. split; [apply dget_dset_eq|].
    cbn [count]. destruct (dget c h); reflexivity.
  - intros c' Hne. apply dget_dset_neq. exact Hne.
Qed.

(** X8. On a consistent ledger, [get_component_reliability] is a number in
    [0, 1]. *)
Theorem get_component_reliability_range h c :
  ledger_consistent h -> 0 <= get_component_reliability h c <= 1.
Proof.
  intro Hh. unfold get_component_reliability.
  destruct (dget c h) as [r|] eqn:E; [|split; discriminate].
  pose proof (dget_Forall _ _ _ _ Hh E) as (Hs & Hf & Hn & Ht0 & Ht1).
  destruct (Z.eqb_spec (count r) 0) as [H0|H0]; [split; discriminate|].
  assert (Hr : 0 <= inject_Z (successes r) / inject_Z (count r) <= 1)
    by (apply rate_unit; lia).
  assert (Ha : 0 <= total_confidence r / inject_Z (count r) <= 1).
  { apply div_unit; [exact Ht0|exact Ht1|]. unfold Qlt, inject_Z; cbn; lia. }
  destruct Hr as [Hr0 Hr1], Ha as [Ha0 Ha1].
  set (x := inject_Z (successes r) / inject_Z (count r)) in *.
  set (y := total_confidence r / inject_Z (count r)) in *.
  split.
  - apply (Qplus_le_compat 0 _ 0); apply Qmult_le_0_compat; try assumption; discriminate.
  - setoid_replace 1 with ((7#10) * 1 + (3#10) * 1) by reflexivity.
    apply Qplus_le_compat; apply Qmult_le_l; try assumption; reflexivity.
Qed.

(** X9. On a consistent ledger, [_get_historical_accuracy] is a number in
    [0, 1], whatever the recommendations. *)
Theorem get_historical_accuracy_range h recs :
  ledger_consistent h -> 0 <= get_historical_accuracy h recs <= 1.
Proof.
  intro Hh. unfold get_historical_accuracy.
  destruct recs as [|r0 rs]; [split; discriminate|].
  match goal with |- context [flat_map ?f (r0 :: rs)] =>
    assert (Hacc : forall x, In x (flat_map f (r0 :: rs)) -> 0 <= x <= 1);
    [|destruct (flat_map f (r0 :: rs)) as [|a l] eqn:E] end.
  - intros x Hx. apply in_flat_map in Hx as [r [_ Hx]].
    destruct (dget (r_source r) h) as [c|] eqn:Ec; [|destruct Hx].
    destruct (0 <? count c)%Z eqn:Ecnt; [|destruct Hx].
    destruct Hx as [<-|[]].
    pose proof (dget_Forall _ _ _ _ Hh Ec) as (Hs & Hf & Hn & _).
    apply Z.ltb_lt in Ecnt. apply rate_unit; lia.
  - split; discriminate.
  - apply mean_unit; [discriminate|exact Hacc].
Qed.

Lemma qsum_nonneg xs : (forall x, In x xs -> 0 <= x) -> 0 <= qsum xs.
Proof.
  induction xs as [|x xs IH]; intro H; [apply Qle_refl|].
  rewrite qsum_cons. apply (Qplus_le_compat 0 x 0 (qsum xs)).
  - apply H. left. reflexivity.
  - apply IH. intros y Hy. apply H. right. exact Hy.
Qed.

Lemma qsum_map_le {A} (f g : A -> Q) l :
  (forall x, In x l -> f x <= g x) -> qsum (map f l) <= qsum (map g l).
Proof.
  induction l as [|x l IH]; intro H; [apply Qle_refl|].
  cbn [map]. rewrite !qsum_cons. apply Qplus_le_compat.
  - apply H. left. reflexivity.
  - apply IH. intros y Hy. apply H. right. exact Hy.
Qed.

(** X10. [_calculate_weighted_confidence] of confidences in [0, 1] is in
    [0, 1] when no component weight is negative. *)
Theorem calculate_weighted_confidence_range recs w :
  (forall r, In r recs -> 0 <= r_confidence r <= 1) ->
  (forall ws k x, w = Some ws -> In (k, x) ws -> 0 <= x) ->
  0 <= calculate_weighted_confidence recs w <= 1.
Proof.
  intros Hr Hw. unfold calculate_weighted_confidence.
  destruct recs as [|r0 rs]; [split; [apply Qle_refl|discriminate]|].
  assert (Hsimple : 0 <= mean (map r_confidence (r0 :: rs)) <= 1).
  { apply mean_unit; [discriminate|].
    intros x Hx. apply in_map_iff in Hx as [r [<- Hin]]. exact (Hr r Hin). }
  destruct w as [[|kv ws]|]; try exact Hsimple.
  assert (Hall : Forall (fun kv => 0 <= snd kv) (kv :: ws)).
  { apply Forall_forall. intros [k x] Hin. exact (Hw _ k x eq_refl Hin). }
  set (wt := fun r => match dget (r_source r) (kv :: ws) with Some x => x | None => 1 end).
  assert (Hwt : forall r, 0 <= wt r).
  { intro r. unfold wt. destruct (dget (r_source r) (kv :: ws)) as [x|] eqn:E;
      [exact (dget_Forall (fun x => 0 <= x) _ _ _ Hall E)|discriminate]. }
  destruct (qltb 0 (qsum (map wt (r0 :: rs)))) eqn:Et; [|exact Hsimple].
  apply qltb_true in Et. apply div_unit; [| |exact Et].
  - apply qsum_nonneg. intros x Hx. apply in_map_iff in Hx as [r [<- Hin]].
    apply Qmult_le_0_compat; [apply (Hr r Hin)|apply Hwt].
  - apply qsum_map_le. intros r Hin.
    destruct (Hr r Hin) as [_ H1].
    cbv beta. apply Qle_trans with (1 * wt r).
    + apply Qmult_le_compat_r; [exact H1|apply Hwt].
    + rewrite Qmult_1_l. apply Qle_refl.
Qed.

Lemma Qsq_nonneg (x : Q) : 0 <= x * x.
Proof. nra. Qed.

Lemma mean_nonneg xs : (forall x, In x xs -> 0 <= x) -> 0 <= mean xs.
Proof.
  intro H. unfold mean. destruct xs as [|x xs]; [apply Qle_refl|].
  apply Qle_shift_div_l; [unfold Qlt, inject_Z; cbn; lia|].
  rewrite Qmult_0_l. apply qsum_nonneg. exact H.
Qed.

Lemma fold_max_le (l : list nat) a n :
  (a <= n)%nat -> (forall x, In x l -> (x <= n)%nat) -> (fold_left Nat.max l a <= n)%nat.
Proof.
  revert a. induction l as [|x l IH]; intros a Ha H; cbn [fold_left]; [exact Ha|].
  apply IH; [apply Nat.max_lub; [exact Ha|apply H; left; reflexivity]|].
  intros y Hy. apply H. right. exact Hy.
Qed.

(** X11. [_calculate_model_agreement] is a number in [0, 1], for any square
    root that is non-negative on non-negative numbers. *)
Theorem calculate_model_agreement_range sqrt recs :
  (forall q, 0 <= q -> 0 <= sqrt q) ->
  0 <= calculate_model_agreement sqrt recs <= 1.
Proof.
  intro Hsqrt. unfold calculate_model_agreement.
  destruct (Nat.leb_spec (length recs) 1) as [H1|H1]; [split; discriminate|].
  destruct recs as [|r0 rs]; [cbn in H1; lia|].
  set (actions := map r_action (r0 :: rs)).
  set (most := fold_left Nat.max
                 (map (fun a => length (filter (pval_eqb a) actions)) actions) 0%nat).
  assert (Hmost : (most <= length actions)%nat).
  { apply fold_max_le; [lia|]. intros x Hx. apply in_map_iff in Hx as [a [<- _]].
    apply filter_length_le. }
  assert (Hag : 0 <= inject_Z (Z.of_nat most) / inject_Z (Z.of_nat (length actions)) <= 1).
  { apply rate_unit; [lia|lia|]. unfold actions. rewrite length_map. lia. }
  destruct (map r_confidence (r0 :: rs)) as [|c0 cs] eqn:Ec; [discriminate Ec|].
  set (confs := c0 :: cs).
  set (std := sqrt (mean (map (fun c => (c - mean confs) * (c - mean confs)) confs))).
  assert (Hstd : 0 <= std).
  { apply Hsqrt. apply mean_nonneg. intros x Hx. apply in_map_iff in Hx as [c [<- _]].
    apply Qsq_nonneg. }
  clearbody std.
  assert (Hal : 0 <= 1 - py_min 1 std <= 1).
  { unfold py_min. destruct (qltb std 1) eqn:E.
    - apply qltb_true in E. split; lra.
    - split; discriminate. }
  apply div_unit; [| |reflexivity].
  - destruct Hag, Hal. lra.
  - destruct Hag, Hal. lra.
Qed.

(** X12. [ConfidenceEstimator.update_decision_outcome] keeps at most 10000
    outcome records. The new record is always the last one kept. What is
    kept is the most recent part of the old history followed by the new
    record. Nothing is dropped while the old history holds fewer than 10000
    records. *)
Theorem record_decision_outcome_window hist did success conf now :
  let r := mk_outcome_record did success conf now in
  let h := record_decision_outcome hist did success conf now in
  (length h <= 10000)%nat /\ last h r = r /\ h <> [] /\
  (exists dropped, hist ++ [r] = dropped ++ h) /\
  ((length hist < 10000)%nat -> h = hist ++ [r]).
Proof.
  cbv zeta. unfold record_decision_outcome.
  set (r := mk_outcome_record did success conf now).
  set (N := 10000%nat).
  assert (HN : (1 <= N)%nat) by (apply Nat.leb_le; vm_compute; reflexivity).
  clearbody N.
  assert (Hlen : length (hist ++ [r]) = S (length hist))
    by (rewrite length_app; cbn; lia).
  destruct (Nat.ltb_spec N (length (hist ++ [r]))) as [Hl|Hl].
  - set (k := (length (hist ++ [r]) - N)%nat).
    assert (Hk : (k <= length hist)%nat) by (unfold k; lia).
    rewrite skipn_app.
    replace (k - length hist)%nat with 0%nat by lia. cbn [skipn].
    split; [rewrite length_app, length_skipn; cbn; unfold k; lia|].
    split; [apply last_last|].
    split; [destruct (skipn k hist); discriminate|].
    split; [exists (firstn k hist); rewrite app_assoc, firstn_skipn; reflexivity|].
    intro Hh. lia.
  - split; [exact Hl|].
    split; [apply last_last|].
    split; [destruct hist; discriminate|].
    split; [exists []; reflexivity|].
    intros _. reflexivity.
Qed.

(** ** Memory *)

Lemma deque_append_spec {A} n (xs : list A) x :
  length (deque_append n xs x) = Nat.min n (S (length xs)) /\
  (exists dropped, xs ++ [x] = dropped ++ deque_append n xs x) /\
  ((1 <= n)%nat -> exists pre, deque_append n xs x = pre ++ [x]).
Proof.
  unfold deque_append.
  assert (Hlen : length (xs ++ [x]) = S (length xs)) by (rewrite length_app; cbn; lia).
  destruct (Nat.ltb_spec n (length (xs ++ [x]))) as [Hl|Hl].
  - destruct n as [|n'].
    { rewrite Nat.sub_0_r, skipn_all.
      split; [reflexivity|]. split; [exists (xs ++ [x]); rewrite app_nil_r; reflexivity|].
      intro H0. lia. }
    set (n := S n') in *.
    rewrite skipn_app. replace (length (xs ++ [x]) - n - length xs)%nat with 0%nat by lia.
    cbn [skipn].
    split; [rewrite length_app, length_skipn; cbn; lia|].
    split; [exists (firstn (length (xs ++ [x]) - n) xs);
            rewrite app_assoc, firstn_skipn; reflexivity|].
    intros _. eexists. reflexivity.
  - split; [lia|]. split; [exists []; reflexivity|]. intros _. eexists. reflexivity.
Qed.

(** X13. [store_event] keeps the last [max_events] events: the new list
    holds min(max_events, n + 1) events, it is what remains of the old
    events followed by the new one once the oldest are dropped, and it ends
    with the new event whenever [max_events] is at least 1. Nothing else in
    the memory changes. *)
Theorem store_event_window m ev :
  let st := short_term m in
  let r := recent_events (short_term (store_event m ev)) in
  length r = Nat.min (max_events st) (S (length (recent_events st))) /\
  (exists dropped, recent_events st ++ [ev] = dropped ++ r) /\
  ((1 <= max_events st)%nat -> exists pre, r = pre ++ [ev]) /\
  max_events (short_term (store_event m ev)) = max_events st /\
  recent_decisions (short_term (store_event m ev)) = recent_decisions st /\
  long_term_embeddings (store_event m ev) = long_term_embeddings m /\
  decision_archive (store_event m ev) = decision_archive m.
Proof.
  cbv zeta. unfold store_event. cbn [short_term recent_events recent_decisions max_events
    long_term_embeddings decision_archive].
  destruct (deque_append_spec (max_events (short_term m)) (recent_events (short_term m)) ev)
    as (H1 & H2 & H3).
  repeat split; assumption.
Qed.

Lemma In_skipn {A} n (l : list A) x : In x (skipn n l) -> In x l.
Proof.
  intro H. rewrite <- (firstn_skipn n l). apply in_or_app. right. exact H.
Qed.

Lemma In_firstn {A} n (l : list A) x : In x (firstn n l) -> In x l.
Proof.
  intro H. rewrite <- (firstn_skipn n l). apply in_or_app. left. exact H.
Qed.

Lemma py_slice_from_neg {A} (limit : Z) (xs : list A) :
  (limit = 0%Z -> py_slice_from (- limit) xs = xs) /\
  ((0 < limit)%Z ->
     length (py_slice_from (- limit) xs) = Nat.min (Z.to_nat limit) (length xs) /\
     exists pre, xs = pre ++ py_slice_from (- limit) xs) /\
  ((limit < 0)%Z -> py_slice_from (- limit) xs = skipn (Z.to_nat (- limit)) xs).
Proof.
  unfold py_slice_from, py_index.
  split; [intros ->; reflexivity|]. split.
  - intro Hl. destruct (Z.ltb_spec (- limit) 0) as [_|]; [|lia].
    split.
    + rewrite length_skipn. lia.
    + eexists. symmetry. apply firstn_skipn.
  - intro Hl. destruct (Z.ltb_spec (- limit) 0) as [|_]; [lia|]. reflexivity.
Qed.

(** X14. [get_recent_events] with a positive [limit] returns the last
    min(limit, n) of the n stored events of the requested type, in their
    stored order. A [limit] of 0 returns all of them, since [events[-0:]] is
    the whole list. A negative [limit] drops the first |limit| of them.
    Every event returned has the requested type when a non-empty type is
    given. *)
Theorem get_recent_events_slice st ty limit :
  let ms := filter_by_type (recent_events st) ty in
  (limit = 0%Z -> get_recent_events st ty limit = ms) /\
  ((0 < limit)%Z ->
     length (get_recent_events st ty limit) = Nat.min (Z.to_nat limit) (length ms) /\
     exists older, ms = older ++ get_recent_events st ty limit) /\
  ((limit < 0)%Z -> get_recent_events st ty limit = skipn (Z.to_nat (- limit)) ms) /\
  (forall e t, In e (get_recent_events st ty limit) -> ty = Some t -> t <> EmptyString ->
     In e (recent_events st) /\ ev_type e = Some t).
Proof.
  cbv zeta. unfold get_recent_events.
  destruct (py_slice_from_neg limit (filter_by_type (recent_events st) ty)) as (H0 & Hp & Hn).
  split; [exact H0|]. split; [exact Hp|]. split; [exact Hn|].
  intros e t Hin -> Ht. unfold py_slice_from in Hin. apply In_skipn in Hin.
  unfold filter_by_type in Hin.
  destruct (String.eqb_spec t EmptyString) as [|_]; [contradiction|].
  apply filter_In in Hin as [Hin He]. split; [exact Hin|].
  destruct (ev_type e) as [t'|]; [|discriminate He].
  apply String.eqb_eq in He. rewrite He. reflexivity.
Qed.

Lemma resize_spec (dim : nat) (emb : list Q) :
  let e := if (length emb <? dim)%nat then emb ++ repeat 0 (dim - length emb)
           else firstn dim emb in
  length e = dim /\ forall i, (i < dim)%nat -> nth i e 0 = nth i emb 0.
Proof.
  cbv zeta. destruct (Nat.ltb_spec (length emb) dim) as [Hl|Hl].
  - split; [rewrite length_app, repeat_length; lia|].
    intros i Hi. destruct (Nat.ltb_spec i (length emb)) as [Hi'|Hi'].
    + apply app_nth1. exact Hi'.
    + rewrite (nth_overflow emb) by exact Hi'.
      rewrite app_nth2 by exact Hi'. apply nth_repeat.
  - split; [rewrite length_firstn; lia|].
    intros i Hi. rewrite <- (firstn_skipn dim emb) at 2.
    symmetry. apply app_nth1. rewrite length_firstn. lia.
Qed.

(** X15. [store_decision_embedding] and [store_pattern_embedding] store,
    under the given id, a vector of exactly [embedding_dim] entries: the
    given vector's entries up to the dimension, then zeros. They store the
    metadata under the same id, and leave the vectors of other ids and the
    other store unchanged. *)
Theorem store_embedding_resized le id emb md pmd :
  (exists e, dget id (decision_embeddings (store_decision_embedding le id emb md)) = Some e /\
     length e = embedding_dim le /\
     forall i, (i < embedding_dim le)%nat -> nth i e 0 = nth i emb 0) /\
  dget id (embeddings_metadata (store_decision_embedding le id emb md)) = Some md /\
  (forall id', id' <> id ->
     dget id' (decision_embeddings (store_decision_embedding le id emb md)) =
     dget id' (decision_embeddings le)) /\
  pattern_embeddings (store_decision_embedding le id emb md) = pattern_embeddings le /\
  (exists e, dget id (pattern_embeddings (store_pattern_embedding le id emb pmd)) = Some e /\
     length e = embedding_dim le /\
     forall i, (i < embedding_dim le)%nat -> nth i e 0 = nth i emb 0) /\
  dget id (embeddings_metadata (store_pattern_embedding le id emb pmd)) = Some (MPattern pmd) /\
  (forall id', id' <> id ->
     dget id' (pattern_embeddings (store_pattern_embedding le id emb pmd)) =
     dget id' (pattern_embeddings le)) /\
  decision_embeddings (store_pattern_embedding le id emb pmd) = decision_embeddings le.
Proof.
  unfold store_decision_embedding, store_pattern_embedding.
  cbn [decision_embeddings pattern_embeddings embeddings_metadata].
  destruct (resize_spec (embedding_dim le) emb) as [Hl Hn].
  repeat split.
  - eexists. split; [apply dget_dset_eq|]. split; [exact Hl|exact Hn].
  - apply dget_dset_eq.
  - intros id' H. apply dget_dset_neq. exact H.
  - eexists. split; [apply dget_dset_eq|]. split; [exact Hl|exact Hn].
  - apply dget_dset_eq.
  - intros id' H. apply dget_dset_neq. exact H.
Qed.

Lemma map_result_ok {A B} (f : A -> result B) l ys :
  map_result f l = Ok ys ->
  length ys = length l /\ forall y, In y ys -> exists x, In x l /\ f x = Ok y.
Proof.
  revert ys. induction l as [|x l IH]; intros ys H; cbn in H.
  - injection H as <-. split; [reflexivity|]. intros y [].
  - destruct (f x) as [y0|e] eqn:Ef; cbn in H; [|discriminate H].
    destruct (map_result f l) as [ys0|e] eqn:Er; cbn in H; [|discriminate H].
    injection H as <-. destruct (IH ys0 eq_refl) as [Hl Hin].
    split; [cbn; rewrite Hl; reflexivity|].
    intros y [<-|Hy]; [exists x; split; [left; reflexivity|exact Ef]|].
    destruct (Hin y Hy) as [x' [Hx' Hf]]. exists x'. split; [right; exact Hx'|exact Hf].
Qed.

Lemma map_result_raise {A B} (f : A -> result B) l e :
  map_result f l = Raise e -> exists x, In x l /\ f x = Raise e.
Proof.
  induction l as [|x l IH]; intro H; cbn in H; [discriminate H|].
  destruct (f x) as [y0|e'] eqn:Ef; cbn in H.
  - destruct (map_result f l) as [ys0|e'] eqn:Er; cbn in H; [discriminate H|].
    injection H as ->. destruct (IH eq_refl) as [x' [Hx Hf]].
    exists x'. split; [right; exact Hx|exact Hf].
  - injection H as ->. exists x. split; [left; reflexivity|exact Ef].
Qed.

Lemma map_result_some_raise {A B} (f : A -> result B) l x e :
  In x l -> f x = Raise e -> exists e', map_result f l = Raise e'.
Proof.
  induction l as [|y l IH]; intros Hin Hf; [destruct Hin|].
  cbn. destruct Hin as [->|Hin].
  - rewrite Hf. cbn. eexists. reflexivity.
  - destruct (f y) as [z|e']; cbn; [|eexists; reflexivity].
    destruct (IH Hin Hf) as [e' ->]. cbn. eexists. reflexivity.
Qed.

Definition sim_ge (x y : similar) : Prop := sim_score y <= sim_score x.

Lemma insert_by_similarity_perm x l : Permutation (insert_by_similarity x l) (x :: l).
Proof.
  induction l as [|h t IH]; cbn; [reflexivity|].
  destruct (Qle_bool (sim_score h) (sim_score x)); [reflexivity|].
  rewrite IH. apply perm_swap.
Qed.

Lemma sort_by_similarity_perm l : Permutation (sort_by_similarity l) l.
Proof.
  induction l as [|h t IH]; cbn; [reflexivity|].
  rewrite insert_by_similarity_perm. apply perm_skip, IH.
Qed.

Lemma insert_by_similarity_sorted x l :
  Sorted sim_ge l -> Sorted sim_ge (insert_by_similarity x l).
Proof.
  induction l as [|h t IH]; intro Hs; cbn; [repeat constructor|].
  destruct (Qle_bool (sim_score h) (sim_score x)) eqn:E.
  - apply Qle_bool_iff in E. constructor; [exact Hs | constructor; exact E].
  - assert (E' : sim_score x <= sim_score h).
    { apply Qlt_le_weak, Qnot_le_lt. intro H. apply Qle_bool_iff in H. congruence. }
    inversion Hs as [|? ? Ht Hh]; subst.
    constructor; [apply IH, Ht|].
    destruct t as [|h' t']; cbn.
    + constructor. exact E'.
    + destruct (Qle_bool (sim_score h') (sim_score x)).
      * constructor. exact E'.
      * inversion Hh; subst. constructor. assumption.
Qed.

Lemma sort_by_similarity_sorted l : Sorted sim_ge (sort_by_similarity l).
Proof.
  induction l as [|h t IH]; cbn; [constructor|].
  apply insert_by_similarity_sorted, IH.
Qed.

Lemma Sorted_firstn {A} (R : A -> A -> Prop) n l : Sorted R l -> Sorted R (firstn n l).
Proof.
  revert l. induction n as [|n IH]; intros l Hs; [constructor|].
  destruct l as [|a l]; [constructor|]. cbn.
  inversion Hs as [|? ? Ht Hh]; subst. constructor; [apply IH, Ht|].
  destruct l as [|b l]; [destruct n; constructor|].
  destruct n; cbn; [constructor|]. inversion Hh; subst. constructor. assumption.
Qed.

Lemma py_index_nonneg (i : Z) n : (0 <= i)%Z -> py_index i n = Z.to_nat i.
Proof. intro H. unfold py_index. destruct (Z.ltb_spec i 0); [lia|reflexivity]. Qed.

Lemma normalize_length sqrt v : length (normalize sqrt v) = length v.
Proof. unfold normalize. apply length_map. Qed.

(** The common body of the two similarity searches, over any store and
    metadata dict. *)
Lemma find_similar_spec sqrt embs md query top_k :
  (embs = [] -> find_similar sqrt embs md query top_k = Ok []) /\
  (forall ex, find_similar sqrt embs md query top_k = Raise ex <->
     ex = ValueError /\
     exists id e, In (id, e) embs /\ length e <> length query) /\
  (forall res, find_similar sqrt embs md query top_k = Ok res ->
     ((0 <= top_k)%Z -> length res = Nat.min (Z.to_nat top_k) (length embs)) /\
     Sorted sim_ge res /\
     forall s, In s res ->
       In (sim_id s) (map fst embs) /\
       sim_metadata s = dget (sim_id s) md).
Proof.
  unfold find_similar.
  split; [intros ->; reflexivity|].
  destruct embs as [|kv0 des].
  { split; [intro ex; split; [discriminate|intros [_ (id & e & [] & _)]]|].
    intros res H. injection H as <-. split; [intros _; cbn; lia|].
    split; [constructor|]. intros s []. }
  set (f := fun kv : string * list Q =>
    let* similarity := np_dot (normalize sqrt query) (normalize sqrt (snd kv)) in
    Ok (mk_similar (fst kv) similarity (dget (fst kv) md))).
  assert (Hf : forall kv ex, f kv = Raise ex <->
                 ex = ValueError /\ length (snd kv) <> length query).
  { intros kv ex. unfold f, np_dot. rewrite !normalize_length.
    destruct (Nat.eqb_spec (length query) (length (snd kv))); cbn.
    - split; [discriminate|]. intros [_ H]. congruence.
    - split; [intro H; injection H as <-; split; [reflexivity|congruence]|].
      intros [-> _]. reflexivity. }
  split.
  - intro ex. split.
    + intro H. destruct (map_result f (kv0 :: des)) as [sims|e] eqn:Em; cbn in H;
        [discriminate H|injection H as ->].
      apply map_result_raise in Em as [[id e] [Hin He]].
      apply Hf in He as [-> Hl]. split; [reflexivity|]. exists id, e. split; assumption.
    + intros [-> (id & e & Hin & Hl)].
      destruct (map_result_some_raise f _ (id, e) ValueError Hin (proj2 (Hf (id, e) _)
        (conj eq_refl Hl))) as [e' Hm].
      rewrite Hm. cbn.
      apply map_result_raise in Hm as [kv [_ He]]. apply Hf in He as [-> _]. reflexivity.
  - intros res H.
    destruct (map_result f (kv0 :: des)) as [sims|e] eqn:Em; cbn in H; [|discriminate H].
    injection H as <-.
    destruct (map_result_ok f _ _ Em) as [Hlen Hin].
    unfold py_slice_to.
    split; [|split].
    + intro Hk. rewrite length_firstn, py_index_nonneg by exact Hk.
      rewrite (Permutation_length (sort_by_similarity_perm sims)), Hlen. reflexivity.
    + apply Sorted_firstn, sort_by_similarity_sorted.
    + intros s Hs. apply In_firstn in Hs.
      apply (Permutation_in _ (sort_by_similarity_perm sims)) in Hs.
      destruct (Hin s Hs) as [kv [Hkv Hfs]].
      unfold f, np_dot in Hfs.
      destruct (length (normalize sqrt query) =? length (normalize sqrt (snd kv)))%nat;
        cbn in Hfs; [|discriminate Hfs].
      injection Hfs as <-. cbn [sim_id sim_metadata].
      split; [apply in_map, Hkv|reflexivity].
Qed.
(** X16. [find_similar_decisions] raises (a [ValueError] from [np.dot]) if
    and only if a stored vector's length differs from the query's. When it
    returns, it lists [top_k] (or all, if fewer) stored decisions, sorted by
    decreasing similarity, each with the metadata stored under its id; an
    empty store gives an empty list. *)
Theorem find_similar_decisions_spec sqrt le query top_k :
  (decision_embeddings le = [] -> find_similar_decisions sqrt le query top_k = Ok []) /\
  (forall ex, find_similar_decisions sqrt le query top_k = Raise ex <->
     ex = ValueError /\
     exists id e, In (id, e) (decision_embeddings le) /\ length e <> length query) /\
  (forall res, find_similar_decisions sqrt le query top_k = Ok res ->
     ((0 <= top_k)%Z -> length res = Nat.min (Z.to_nat top_k) (length (decision_embeddings le))) /\
     Sorted sim_ge res /\
     forall s, In s res ->
       In (sim_id s) (map fst (decision_embeddings le)) /\
       sim_metadata s = dget (sim_id s) (embeddings_metadata le)).
Proof.
  exact (find_similar_spec sqrt (decision_embeddings le) (embeddings_metadata le) query top_k).
Qed.

(** X22. [find_similar_patterns] behaves as [find_similar_decisions] on the
    pattern store: an empty store gives an empty list, it raises exactly
    [ValueError] exactly when a stored vector's length differs from the
    query's, and otherwise lists [top_k] (or all) stored patterns by
    decreasing similarity with the metadata stored under their ids. The
    metadata dict is shared by both stores, so storing a pattern under an id
    a decision already uses replaces that decision's metadata: a decision
    search then reports the pattern's metadata for that id. *)
Theorem find_similar_patterns_spec sqrt le query top_k :
  (pattern_embeddings le = [] -> find_similar_patterns sqrt le query top_k = Ok []) /\
  (forall ex, find_similar_patterns sqrt le query top_k = Raise ex <->
     ex = ValueError /\
     exists id e, In (id, e) (pattern_embeddings le) /\ length e <> length query) /\
  (forall res, find_similar_patterns sqrt le query top_k = Ok res ->
     ((0 <= top_k)%Z -> length res = Nat.min (Z.to_nat top_k) (length (pattern_embeddings le))) /\
     Sorted sim_ge res /\
     forall s, In s res ->
       In (sim_id s) (map fst (pattern_embeddings le)) /\
       sim_metadata s = dget (sim_id s) (embeddings_metadata le)) /\
  (forall id emb pmd res,
     find_similar_decisions sqrt (store_pattern_embedding le id emb pmd) query top_k = Ok res ->
     forall s, In s res -> sim_id s = id -> sim_metadata s = Some (MPattern pmd)).
Proof.
  destruct (find_similar_spec sqrt (pattern_embeddings le) (embeddings_metadata le) query top_k)
    as (H1 & H2 & H3).
  split; [exact H1|]. split; [exact H2|]. split; [exact H3|].
  intros id emb pmd res H s Hs Hid.
  unfold find_similar_decisions in H.
  destruct (find_similar_spec sqrt (decision_embeddings (store_pattern_embedding le id emb pmd))
              (embeddings_metadata (store_pattern_embedding le id emb pmd)) query top_k)
    as (_ & _ & Hok).
  destruct (Hok res H) as (_ & _ & Hin).
  destruct (Hin s Hs) as [_ ->]. rewrite Hid.
  unfold store_pattern_embedding. cbn [embeddings_metadata]. apply dget_dset_eq.
Qed.

Definition ts_ge (x y : archive_entry) : Prop := (ae_timestamp y <= ae_timestamp x)%Z.

Lemma insert_newest_first_perm e l : Permutation (insert_newest_first e l) (e :: l).
Proof.
  induction l as [|h t IH]; cbn; [reflexivity|].
  destruct (ae_timestamp h <=? ae_timestamp e)%Z; [reflexivity|].
  rewrite IH. apply perm_swap.
Qed.

Lemma sort_newest_first_perm l : Permutation (sort_newest_first l) l.
Proof.
  induction l as [|h t IH]; cbn; [reflexivity|].
  rewrite insert_newest_first_perm. apply perm_skip, IH.
Qed.

Lemma insert_newest_first_sorted e l :
  Sorted ts_ge l -> Sorted ts_ge (insert_newest_first e l).
Proof.
  induction l as [|h t IH]; intro Hs; cbn; [repeat constructor|].
  destruct (ae_timestamp h <=? ae_timestamp e)%Z eqn:E.
  - apply Z.leb_le in E. constructor; [exact Hs | constructor; exact E].
  - apply Z.leb_gt in E. inversion Hs as [|? ? Ht Hh]; subst.
    constructor; [apply IH, Ht|].
    destruct t as [|h' t']; cbn.
    + constructor. unfold ts_ge. lia.
    + destruct (ae_timestamp h' <=? ae_timestamp e)%Z.
      * constructor. unfold ts_ge. lia.
      * inversion Hh; subst. constructor. assumption.
Qed.

Lemma sort_newest_first_sorted l : Sorted ts_ge (sort_newest_first l).
Proof.
  induction l as [|h t IH]; cbn; [constructor|].
  apply insert_newest_first_sorted, IH.
Qed.

(** X17. [search_decisions] returns archived entries that match the query,
    newest first. With a non-negative [limit] it returns min(limit, m) of
    the m matching entries, and every matching entry it leaves out is no
    newer than any entry it returns. *)
Theorem search_decisions_spec da query limit :
  (forall e, In e (search_decisions da query limit) ->
     In e (archives da) /\ entry_matches query e = true) /\
  Sorted ts_ge (search_decisions da query limit) /\
  ((0 <= limit)%Z ->
     length (search_decisions da query limit) =
       Nat.min (Z.to_nat limit) (length (filter (entry_matches query) (archives da))) /\
     forall e, In e (archives da) -> entry_matches query e = true ->
       ~ In e (search_decisions da query limit) ->
       forall r, In r (search_decisions da query limit) ->
         (ae_timestamp e <= ae_timestamp r)%Z).
Proof.
  unfold search_decisions, py_slice_to.
  set (ms := filter (entry_matches query) (archives da)).
  pose proof (sort_newest_first_perm ms) as Hp.
  pose proof (sort_newest_first_sorted ms) as Hs.
  set (S := sort_newest_first ms) in *.
  split; [|split].
  - intros e He. apply In_firstn in He. apply (Permutation_in _ Hp) in He.
    apply filter_In in He. exact He.
  - apply Sorted_firstn, Hs.
  - intro Hl. rewrite py_index_nonneg by exact Hl.
    split; [rewrite length_firstn, (Permutation_length Hp); reflexivity|].
    intros e Hin Hm Hnot r Hr.
    assert (HeS : In e S).
    { apply (Permutation_in _ (Permutation_sym Hp)). apply filter_In. split; assumption. }
    rewrite <- (firstn_skipn (Z.to_nat limit) S) in HeS.
    apply in_app_or in HeS as [HeS|HeS]; [contradiction|].
    apply Sorted_StronglySorted in Hs; [|unfold Relations_1.Transitive, ts_ge; intros; lia].
    rewrite <- (firstn_skipn (Z.to_nat limit) S) in Hs.
    exact (StronglySorted_app_rel ts_ge _ _ Hs r e Hr HeS).
Qed.

Lemma find_put_entry e l :
  find (fun x => String.eqb (ae_decision_id x) (ae_decision_id e)) (put_entry e l) = Some e.
Proof.
  induction l as [|h t IH]; cbn.
  - rewrite String.eqb_refl. reflexivity.
  - destruct (String.eqb_spec (ae_decision_id e) (ae_decision_id h)) as [E|E]; cbn.
    + rewrite String.eqb_refl. reflexivity.
    + destruct (String.eqb_spec (ae_decision_id h) (ae_decision_id e)); [congruence|exact IH].
Qed.

Lemma find_unique_id e l :
  NoDup (map ae_decision_id l) -> In e l ->
  find (fun x => String.eqb (ae_decision_id x) (ae_decision_id e)) l = Some e.
Proof.
  induction l as [|h t IH]; intros Hn Hin; [destruct Hin|].
  cbn in Hn. inversion Hn as [|? ? Hh Ht]; subst. cbn.
  destruct Hin as [->|Hin]; [rewrite String.eqb_refl; reflexivity|].
  destruct (String.eqb_spec (ae_decision_id h) (ae_decision_id e)) as [E|E].
  - exfalso. apply Hh. rewrite E. apply in_map, Hin.
  - exact (IH Ht Hin).
Qed.

Lemma insert_by_timestamp_last h S' e :
  (ae_timestamp h <= ae_timestamp e)%Z ->
  exists S'', insert_by_timestamp h (S' ++ [e]) = S'' ++ [e].
Proof.
  intro Hh. induction S' as [|x S' IH]; cbn.
  - destruct (Z.leb_spec (ae_timestamp h) (ae_timestamp e)); [|lia].
    exists [h]. reflexivity.
  - destruct (ae_timestamp h <=? ae_timestamp x)%Z.
    + exists (h :: x :: S'). reflexivity.
    + destruct IH as [S'' ->]. exists (x :: S''). reflexivity.
Qed.

Lemma sort_by_timestamp_last l e :
  (forall x, In x l -> (ae_timestamp x <= ae_timestamp e)%Z) ->
  exists S', sort_by_timestamp (l ++ [e]) = S' ++ [e].
Proof.
  induction l as [|h l IH]; intro H; cbn.
  - exists []. reflexivity.
  - destruct IH as [S' HS]; [intros x Hx; apply H; right; exact Hx|].
    rewrite HS. apply insert_by_timestamp_last. apply H. left. reflexivity.
Qed.

Lemma sort_by_timestamp_first l e :
  (forall x, In x l -> (ae_timestamp e < ae_timestamp x)%Z) ->
  exists S', sort_by_timestamp (l ++ [e]) = e :: S'.
Proof.
  induction l as [|h l IH]; intro H; cbn.
  - exists []. reflexivity.
  - destruct IH as [S' HS]; [intros x Hx; apply H; right; exact Hx|].
    rewrite HS. cbn. specialize (H h (or_introl eq_refl)).
    destruct (Z.leb_spec (ae_timestamp h) (ae_timestamp e)); [lia|].
    eexists. reflexivity.
Qed.

(** Archiving a decision no older than the archived ones, into an archive
    within a bound of at least 1 and with distinct ids, makes it readable
    with [get_decision]. *)
Lemma archive_decision_retrievable da id now d ctx o s :
  NoDup (map ae_decision_id (archives da)) -> (length (archives da) <= max_size da)%nat ->
  (1 <= max_size da)%nat ->
  (forall x, In x (archives da) -> (ae_timestamp x <= now)%Z) ->
  get_decision (archive_decision da id now d ctx o s) id = Some (mk_entry id now d ctx o s).
Proof.
  intros Hn Hb. unfold get_decision, archive_decision.
  cbn [archives max_size].
  set (e := mk_entry id now d ctx o s).
  change id with (ae_decision_id e).
  set (l := archives da) in *. set (m := max_size da) in *.
  destruct (put_entry_ids e l Hn) as [Hna Hla].
  intros Hm Hts.
  destruct (Nat.ltb_spec m (length (put_entry e l))) as [Hl|Hl]; [|apply find_put_entry].
  destruct (in_dec String.string_dec (ae_decision_id e) (map ae_decision_id l)) as [Hin|Hin].
  { exfalso. assert (length (put_entry e l) = length l) as Hlen.
    { rewrite <- (length_map ae_decision_id (put_entry e l)), put_entry_present by exact Hin.
      apply length_map. }
    lia. }
  rewrite (put_entry_fresh e l Hin) in *.
  rewrite length_app in Hl |- *. cbn [length] in Hl |- *.
  replace (length l + 1 - m)%nat with 1%nat by lia.
  assert (Hk : (1 <= length (l ++ [e]))%nat) by (rewrite length_app; cbn; lia).
  destruct (evict_spec (l ++ [e]) 1 Hna Hk) as (Hmem & _ & Hna' & _).
  apply find_unique_id; [exact Hna'|]. apply Hmem.
  destruct (sort_by_timestamp_last l e Hts) as [S' HS]. rewrite HS.
  assert (HS' : length S' = length l).
  { apply (f_equal (@length _)) in HS.
    rewrite (Permutation_length (sort_by_timestamp_perm _)), !length_app in HS.
    cbn in HS. lia. }
  destruct S' as [|x S']; [cbn in HS'; lia|].
  cbn. apply in_or_app. right. left. reflexivity.
Qed.

(** X18. In an archive within its bound with distinct ids, a decision
    archived at a time no earlier than any archived entry can be read back
    with [get_decision] (for a bound of at least 1). A new decision
    archived into a full archive whose entries are all strictly newer is
    evicted at once: [get_decision] then finds nothing under its id. *)
Theorem archive_decision_get da id now d ctx o s :
  NoDup (map ae_decision_id (archives da)) -> (length (archives da) <= max_size da)%nat ->
  ((1 <= max_size da)%nat ->
   (forall x, In x (archives da) -> (ae_timestamp x <= now)%Z) ->
   get_decision (archive_decision da id now d ctx o s) id = Some (mk_entry id now d ctx o s)) /\
  (length (archives da) = max_size da -> ~ In id (map ae_decision_id (archives da)) ->
   (forall x, In x (archives da) -> (now < ae_timestamp x)%Z) ->
   get_decision (archive_decision da id now d ctx o s) id = None).
Proof.
  intros Hn Hb. split; [exact (archive_decision_retrievable da id now d ctx o s Hn Hb)|].
  unfold get_decision, archive_decision.
  cbn [archives max_size].
  set (e := mk_entry id now d ctx o s).
  change id with (ae_decision_id e).
  set (l := archives da) in *. set (m := max_size da) in *.
  destruct (put_entry_ids e l Hn) as [Hna Hla].
  intros Hm Hfresh Hts.
  rewrite (put_entry_fresh e l Hfresh) in *.
  rewrite length_app. cbn [length].
  destruct (Nat.ltb_spec m (length l + 1)) as [_|Hl]; [|lia].
  replace (length l + 1 - m)%nat with 1%nat by lia.
  assert (Hk : (1 <= length (l ++ [e]))%nat) by (rewrite length_app; cbn; lia).
  destruct (evict_spec (l ++ [e]) 1 Hna Hk) as (Hmem & _ & _ & Hincl & _ & _ & Hdisj).
  destruct (sort_by_timestamp_first l e Hts) as [S' HS].
  destruct (find _ _) as [x|] eqn:Hf; [|reflexivity].
  exfalso. apply find_some in Hf as [Hx Hid]. apply String.eqb_eq in Hid.
  assert (Hx' := Hincl x Hx). apply in_app_or in Hx' as [Hx'|[<-|[]]].
  + apply Hfresh. rewrite <- Hid. apply in_map, Hx'.
  + apply Hmem in Hx. apply (Hdisj e); [|exact Hx].
    rewrite HS. left. reflexivity.
Qed.

Lemma py_min_le_l a b : py_min a b <= a.
Proof.
  unfold py_min. destruct (qltb b a) eqn:E; [apply Qlt_le_weak, qltb_true, E | apply Qle_refl].
Qed.

Lemma py_min_nonneg a b : 0 <= a -> 0 <= b -> 0 <= py_min a b.
Proof. intros Ha Hb. unfold py_min. destruct (qltb b a); assumption. Qed.

(** X19. The forecaster's arrays hold several values (five for a
    five-minute forecast), and the truth test of a numpy array of more than
    one element raises [ValueError]. A CPU forecast of two or more values
    makes [_choose_best_action], hence [process_event], raise [ValueError]
    whatever the other advisors say. An error-burst array of two or more
    values makes [_calculate_risk_score] raise [ValueError], and with it
    [_choose_best_action] as soon as some recommendation was collected. *)
Theorem forecast_array_truth_raises ev intel rt f :
  i_transformers intel = Some f ->
  ((exists c1 c2 cs, cpu_forecast f = Some (c1 :: c2 :: cs)) ->
     collect_recommendations intel = Raise ValueError /\
     choose_best_action ev intel rt = Raise ValueError /\
     forall sqrt u o n1 n2 n3 emb,
       process_event sqrt u o ev intel n1 n2 n3 emb = Raise ValueError) /\
  ((exists e1 e2 es, error_burst f = Some (e1 :: e2 :: es)) ->
     calculate_risk_score ev intel = Raise ValueError /\
     forall r rs, collect_recommendations intel = Ok (r :: rs) ->
       choose_best_action ev intel rt = Raise ValueError).
Proof.
  intro Hf. split.
  - intros (c1 & c2 & cs & Hc).
    assert (Hcol : collect_recommendations intel = Raise ValueError).
    { unfold collect_recommendations. rewrite Hf, Hc. reflexivity. }
    assert (Hch : forall rt', choose_best_action ev intel rt' = Raise ValueError).
    { intro rt'. unfold choose_best_action. rewrite Hcol. reflexivity. }
    split; [exact Hcol|]. split; [apply Hch|].
    intros sqrt u o n1 n2 n3 emb. unfold process_event. cbv zeta.
    rewrite Hch. reflexivity.
  - intros (e1 & e2 & es & He).
    assert (Hrs : calculate_risk_score ev intel = Raise ValueError).
    { unfold calculate_risk_score. cbv zeta. rewrite Hf, He. reflexivity. }
    split; [exact Hrs|].
    intros r rs Hcol. unfold choose_best_action. rewrite Hcol, Hrs. reflexivity.
Qed.

(** X20. [_calculate_risk_score] returns at most 1, and at least 0 when the
    GNN's failure probabilities are non-negative. It raises only
    [ValueError], and only on an error-burst array of two or more values. *)
Theorem calculate_risk_score_range ev intel :
  match calculate_risk_score ev intel with
  | Ok r => r <= 1 /\ ((forall p, In p (dflt [] (i_gnn intel)) -> 0 <= snd p) -> 0 <= r)
  | Raise ex => ex = ValueError /\ exists f e1 e2 es,
      i_transformers intel = Some f /\ error_burst f = Some (e1 :: e2 :: es)
  end.
Proof.
  unfold calculate_risk_score. cbv zeta.
  set (sev := if String.eqb _ "low" then _ else _).
  assert (Hsev : 0 <= sev).
  { unfold sev. repeat match goal with |- context [if ?b then _ else _] => destruct b end;
    unfold Qle; cbn; lia. }
  clearbody sev.
  destruct (i_gnn intel) as [[|p ps]|] eqn:Eg;
  destruct (i_transformers intel) as [f|] eqn:Ef;
  try destruct (error_burst f) as [[|e1 [|e2 es]]|] eqn:Eb; cbn [bind np_truthy dflt];
  repeat match goal with |- context [if ?b then _ else _] => destruct b end;
  cbn [bind];
  first
    [ split; [reflexivity | do 4 eexists; split; [reflexivity | exact Eb]]
    | split; [apply py_min_le_l | intro Hp; apply py_min_nonneg; [unfold Qle; cbn; lia|]];
      try (assert (Hm : 0 <= mean (map snd (p :: ps)))
             by (apply mean_nonneg; intros x Hx; apply in_map_iff in Hx as [q [<- Hq]];
                 apply Hp; exact Hq));
      lra ].
Qed.

(** X21. A [process_event] that completes reports the event, the routing
    [route_event] computes and a dispatch record for the routed agent with
    the returned decision's action, status ["executed"] and the third clock
    reading. It keeps the safety layer and the reliability ledger. It appends
    the event to the recent events and the returned decision to the recent
    decisions (for bounds of at least 1). It stores under the returned id,
    [decision_<archive size>_<first clock reading>], an embedding of the
    configured dimension with the decision and event as metadata. Into an
    archive within its bound of at least 1, with distinct ids and no entry
    newer than the second clock reading, it archives the decision, and
    [get_decision] reads it back. *)
Theorem process_event_effects sqrt u o ev intel n1 n2 n3 emb r o' :
  process_event sqrt u o ev intel n1 n2 n3 emb = Ok (r, o') ->
  pr_event r = ev /\ pr_routing r = route_event ev /\
  pr_execution_result r
    = mk_execution (rt_target_agent (route_event ev)) (d_action (pr_decision r)) "executed" n3 /\
  o_safety_layer o' = o_safety_layer o /\ o_component_history o' = o_component_history o /\
  pr_decision_id r
    = cat ["decision_"; z_str (Z.of_nat (length (archives (decision_archive (o_memory o)))));
           "_"; z_str n1] /\
  ((1 <= max_events (short_term (o_memory o)))%nat ->
     exists pre, recent_events (short_term (o_memory o')) = pre ++ [ev]) /\
  ((1 <= max_decisions (short_term (o_memory o)))%nat ->
     exists pre, recent_decisions (short_term (o_memory o')) = pre ++ [pr_decision r]) /\
  (exists v, dget (pr_decision_id r) (decision_embeddings (long_term_embeddings (o_memory o')))
               = Some v /\ length v = embedding_dim (long_term_embeddings (o_memory o))) /\
  dget (pr_decision_id r) (embeddings_metadata (long_term_embeddings (o_memory o')))
    = Some (MDecision (pr_decision r) ev) /\
  (NoDup (map ae_decision_id (archives (decision_archive (o_memory o)))) ->
   (length (archives (decision_archive (o_memory o))) <= max_size (decision_archive (o_memory o)))%nat ->
   (1 <= max_size (decision_archive (o_memory o)))%nat ->
   (forall x, In x (archives (decision_archive (o_memory o))) -> (ae_timestamp x <= n2)%Z) ->
   get_decision (decision_archive (o_memory o')) (pr_decision_id r)
     = Some (mk_entry (pr_decision_id r) n2 (pr_decision r) ev None None)).
Proof.
  intro H. unfold process_event in H. cbv zeta in H.
  apply bind_inv in H as [dec [Hdec H]].
  match type of H with context [estimate_confidence ?a ?b ?c ?d ?e ?f] =>
    destruct (estimate_confidence a b c d e f) as [conf fac] end.
  apply bind_inv in H as [safe [Hsafe H]].
  unfold store_decision in H. cbv zeta in H.
  injection H; intros; subst. clear H. cbn.
  destruct (deque_append_spec (max_events (short_term (o_memory o)))
              (recent_events (short_term (o_memory o))) ev) as (_ & _ & He).
  destruct (deque_append_spec (max_decisions (short_term (o_memory o)))
              (recent_decisions (short_term (o_memory o))) (set_confidence safe (Some conf)))
    as (_ & _ & Hd).
  destruct (resize_spec (embedding_dim (long_term_embeddings (o_memory o))) emb) as [Hl _].
  repeat split; try assumption.
  - eexists. split; [apply dget_dset_eq | exact Hl].
  - apply dget_dset_eq.
  - intros Hn Hb Hm Hts. apply archive_decision_retrievable; assumption.
Qed.

(** Case on one keyword test where it still occurs in the goal. *)
Ltac case_contains k s :=
  try match goal with |- context [contains k s] => destruct (contains k s) end;
  cbn [orb andb negb].

(** X23. [route_event] pairs each event type with one agent and a routing
    confidence: errors go to the code agent, crashes to self-healing,
    overloads to scaling, anomalies to monitoring, attacks to security, all
    with confidence 1; an unknown type goes to self-healing with confidence
    0.5. It never routes to the ["unknown"] agent. The keyword tests are
    tried in order on the lower-cased type, so an ["error"] anywhere in it
    wins over every other keyword; the type is ["unknown"] exactly when none
    of the thirteen keywords occurs in it (a missing type included). *)
Theorem route_event_table ev :
  let s := lower (dflt EmptyString (ev_type ev)) in
  let rt := route_event ev in
  In (rt_event_type rt, rt_target_agent rt, rt_routing_confidence rt)
    [("error", "code_agent", 1); ("crash", "self_healing_agent", 1);
     ("overload", "scaling_agent", 1); ("anomaly", "monitoring_agent", 1);
     ("attack", "security_agent", 1); ("unknown", "self_healing_agent", 1#2)] /\
  (contains "error" s = true -> rt_event_type rt = "error") /\
  (rt_event_type rt = "unknown" <->
     forallb (fun k => negb (contains k s))
       ["error"; "code_error"; "crash"; "pod_crash"; "failure"; "overload"; "high_load";
        "resource_exhaustion"; "anomaly"; "unusual"; "attack"; "security"; "breach"] = true).
Proof.
  cbv zeta. unfold route_event, classify_event, dflt.
  set (s := lower _). clearbody s.
  cbn [forallb].
  case_contains "error" s; case_contains "code_error" s; case_contains "crash" s;
  case_contains "pod_crash" s; case_contains "failure" s; case_contains "overload" s;
  case_contains "high_load" s; case_contains "resource_exhaustion" s;
  case_contains "anomaly" s; case_contains "unusual" s; case_contains "attack" s;
  case_contains "security" s; case_contains "breach" s.
  all: cbn [routing_map EventType.value AgentType.value rt_event_type rt_target_agent
            rt_routing_confidence].
  all: split; [cbn [In]; repeat (first [left; reflexivity | right]) |].
  all: split; [intro Hk; first [reflexivity | discriminate Hk] |].
  all: split; intro Hu; first [reflexivity | discriminate Hu].
Qed.

(** X24. [get_recent_decisions] with a positive [limit] returns the last
    min(limit, n) of the n recent decisions, in their stored order; a
    [limit] of 0 returns all of them, since [decisions[-0:]] is the whole
    list; a negative [limit] drops the first |limit|. Right after
    [MetaAgentMemory.store_decision] (with a bound of at least 1), the most
    recent decision is the one just stored. *)
Theorem get_recent_decisions_slice st limit :
  (limit = 0%Z -> get_recent_decisions st limit = recent_decisions st) /\
  ((0 < limit)%Z ->
     length (get_recent_decisions st limit) = Nat.min (Z.to_nat limit) (length (recent_decisions st)) /\
     exists older, recent_decisions st = older ++ get_recent_decisions st limit) /\
  ((limit < 0)%Z -> get_recent_decisions st limit = skipn (Z.to_nat (- limit)) (recent_decisions st)) /\
  (forall m d ctx did now_id now_ts emb,
     (1 <= max_decisions (short_term m))%nat ->
     get_recent_decisions (short_term (snd (store_decision m d ctx did now_id now_ts emb))) 1 = [d]).
Proof.
  unfold get_recent_decisions.
  destruct (py_slice_from_neg limit (recent_decisions st)) as (H0 & Hp & Hn).
  split; [exact H0|]. split; [exact Hp|]. split; [exact Hn|].
  intros m d ctx did now_id now_ts emb Hm.
  unfold store_decision. cbv zeta. cbn [snd short_term recent_decisions].
  set (xs := deque_append _ _ d).
  destruct (deque_append_spec (max_decisions (short_term m)) (recent_decisions (short_term m)) d)
    as (_ & _ & Hd).
  destruct (Hd Hm) as [pre Hpre]. fold xs in Hpre.
  destruct (py_slice_from_neg 1 xs) as (_ & Hp1 & _).
  destruct (Hp1 ltac:(lia)) as [Hl [older Ho]].
  assert (Hx : length xs = S (length pre)) by (rewrite Hpre, length_app; cbn; lia).
  rewrite Hx in Hl. change (Z.to_nat 1) with 1%nat in Hl.
  clear Hp1. set (ys := py_slice_from _ xs) in *. clearbody ys.
  destruct ys as [|y [|y' ys]]; cbn [length] in Hl; [lia| |lia].
  rewrite Hpre in Ho. apply app_inj_tail in Ho as [_ ->]. reflexivity.
Qed.

(** ** Witnesses: the hypotheses of the extra properties are satisfiable *)

Lemma validate_action_approval_witness :
  validate_action (fun _ : pdict => false) default_safety_layer (PStr "scale_up") (Some [("target_replicas", PInt 5)]) = Ok (true, (@None string), [("action", PStr "scale_up"); ("target_replicas", PInt 5)]) /\
  exists a, (PStr "scale_up") = PStr a /\ (@None string) = None /\
    mem a (allowed_actions default_safety_layer) = true /\ mem a (dangerous_actions default_safety_layer) = false /\
    (fun _ : pdict => false) (dflt [] (Some [("target_replicas", PInt 5)])) = false /\
    (is_deletion_action a = true ->
       any_protected default_safety_layer (lower (match dget "resource_name" (dflt [] (Some [("target_replicas", PInt 5)])) with
                                | Some (PStr r) => r
                                | _ => EmptyString
                                end)) = false) /\
    (contains "scale" a = true ->
       let target := match dget "target_replicas" (dflt [] (Some [("target_replicas", PInt 5)])) with
                     | Some v => v
                     | None => match dget "replicas" (dflt [] (Some [("target_replicas", PInt 5)])) with
                               | Some v => v
                               | None => PInt 0
                               end
                     end in
       (forall r, target <> PStr r) /\
       (forall t, target = PInt t -> (min_replicas default_safety_layer <= t <= max_replicas default_safety_layer)%Z)).
Proof.
  assert (H1 : validate_action (fun _ : pdict => false) default_safety_layer (PStr "scale_up") (Some [("target_replicas", PInt 5)]) = Ok (true, (@None string), [("action", PStr "scale_up"); ("target_replicas", PInt 5)])) by (vm_compute; reflexivity).
  split; [exact H1|].
  exact (validate_action_approval (fun _ : pdict => false) default_safety_layer (PStr "scale_up") (Some [("target_replicas", PInt 5)]) (@None string) [("action", PStr "scale_up"); ("target_replicas", PInt 5)] H1).
Defined.

Lemma get_safety_report_consistent_witness :
  get_safety_report (fun _ : pdict => false) default_safety_layer (fun _ : pdict => false) (fun _ : decision => false) (mk_decision (Some (PStr "scale_up")) (Some [("target_replicas", PInt 5)]) None None None None None None None None) scenario_event = Ok (mk_report true None (PStr "scale_up") None true true true true) /\
  (rep_is_safe (mk_report true None (PStr "scale_up") None true true true true) = true ->
     rep_error_message (mk_report true None (PStr "scale_up") None true true true true) = None /\ rep_corrected_action (mk_report true None (PStr "scale_up") None true true true true) = None /\
     rep_allowed_action (mk_report true None (PStr "scale_up") None true true true true) = true /\ rep_scaling_within_limits (mk_report true None (PStr "scale_up") None true true true true) = true) /\
  (rep_is_safe (mk_report true None (PStr "scale_up") None true true true true) = false ->
     exists m c, rep_error_message (mk_report true None (PStr "scale_up") None true true true true) = Some m /\ rep_corrected_action (mk_report true None (PStr "scale_up") None true true true true) = Some c).
Proof.
  assert (H1 : get_safety_report (fun _ : pdict => false) default_safety_layer (fun _ : pdict => false) (fun _ : decision => false) (mk_decision (Some (PStr "scale_up")) (Some [("target_replicas", PInt 5)]) None None None None None None None None) scenario_event = Ok (mk_report true None (PStr "scale_up") None true true true true)) by (vm_compute; reflexivity).
  split; [exact H1|].
  exact (get_safety_report_consistent (fun _ : pdict => false) default_safety_layer (fun _ : pdict => false) (fun _ : decision => false) (mk_decision (Some (PStr "scale_up")) (Some [("target_replicas", PInt 5)]) None None None None None None None None) scenario_event (mk_report true None (PStr "scale_up") None true true true true) H1).
Defined.

Lemma update_component_performance_consistent_witness :
  0 <= (1#2) <= 1 /\
  ledger_consistent [("rl_agent", mk_component_record 3 1 4 (3#1))] /\
  ledger_consistent (update_component_performance [("rl_agent", mk_component_record 3 1 4 (3#1))] "gnn" true (1#2)) /\
  (exists r, dget "gnn" (update_component_performance [("rl_agent", mk_component_record 3 1 4 (3#1))] "gnn" true (1#2)) = Some r /\
     count r = (dflt 0 (option_map count (dget "gnn" [("rl_agent", mk_component_record 3 1 4 (3#1))])) + 1)%Z) /\
  (forall c', c' <> "gnn" ->
     dget c' (update_component_performance [("rl_agent", mk_component_record 3 1 4 (3#1))] "gnn" true (1#2)) = dget c' [("rl_agent", mk_component_record 3 1 4 (3#1))]).
Proof.
  assert (H1 : 0 <= (1#2) <= 1) by (split; vm_compute; discriminate).
  assert (H2 : ledger_consistent [("rl_agent", mk_component_record 3 1 4 (3#1))]) by (unfold ledger_consistent, record_consistent; repeat first [constructor | (vm_compute; discriminate)]).
  split; [exact H1|].
  split; [exact H2|].
  exact (update_component_performance_consistent [("rl_agent", mk_component_record 3 1 4 (3#1))] "gnn" true (1#2) H1 H2).
Defined.

Lemma get_component_reliability_range_witness :
  ledger_consistent [("rl_agent", mk_component_record 3 1 4 (3#1))] /\
  0 <= get_component_reliability [("rl_agent", mk_component_record 3 1 4 (3#1))] "rl_agent" <= 1.
Proof.
  assert (H1 : ledger_consistent [("rl_agent", mk_component_record 3 1 4 (3#1))]) by (unfold ledger_consistent, record_consistent; repeat first [constructor | (vm_compute; discriminate)]).
  split; [exact H1|].
  exact (get_component_reliability_range [("rl_agent", mk_component_record 3 1 4 (3#1))] "rl_agent" H1).
Defined.

Lemma get_historical_accuracy_range_witness :
  ledger_consistent [("rl_agent", mk_component_record 3 1 4 (3#1))] /\
  0 <= get_historical_accuracy [("rl_agent", mk_component_record 3 1 4 (3#1))] [mk_rec (PStr "restart_pod") (8#10) "rl_agent"; mk_rec (PStr "trigger_heal") (6#10) "gnn"] <= 1.
Proof.
  assert (H1 : ledger_consistent [("rl_agent", mk_component_record 3 1 4 (3#1))]) by (unfold ledger_consistent, record_consistent; repeat first [constructor | (vm_compute; discriminate)]).
  split; [exact H1|].
  exact (get_historical_accuracy_range [("rl_agent", mk_component_record 3 1 4 (3#1))] [mk_rec (PStr "restart_pod") (8#10) "rl_agent"; mk_rec (PStr "trigger_heal") (6#10) "gnn"] H1).
Defined.

Lemma calculate_weighted_confidence_range_witness :
  (forall r, In r [mk_rec (PStr "restart_pod") (8#10) "rl_agent"; mk_rec (PStr "trigger_heal") (6#10) "gnn"] -> 0 <= r_confidence r <= 1) /\
  (forall ws k x, (Some [("rl_agent", 2#1); ("gnn", 1#1)]) = Some ws -> In (k, x) ws -> 0 <= x) /\
  0 <= calculate_weighted_confidence [mk_rec (PStr "restart_pod") (8#10) "rl_agent"; mk_rec (PStr "trigger_heal") (6#10) "gnn"] (Some [("rl_agent", 2#1); ("gnn", 1#1)]) <= 1.
Proof.
  assert (H1 : (forall r, In r [mk_rec (PStr "restart_pod") (8#10) "rl_agent"; mk_rec (PStr "trigger_heal") (6#10) "gnn"] -> 0 <= r_confidence r <= 1)) by (intros r Hr; destruct Hr as [<-|[<-|[]]]; split; vm_compute; discriminate).
  assert (H2 : (forall ws k x, (Some [("rl_agent", 2#1); ("gnn", 1#1)]) = Some ws -> In (k, x) ws -> 0 <= x)) by (intros ws k x Hw Hin; injection Hw as <-; destruct Hin as [Hk|[Hk|[]]]; injection Hk as <- <-; vm_compute; discriminate).
  split; [exact H1|].
  split; [exact H2|].
  exact (calculate_weighted_confidence_range [mk_rec (PStr "restart_pod") (8#10) "rl_agent"; mk_rec (PStr "trigger_heal") (6#10) "gnn"] (Some [("rl_agent", 2#1); ("gnn", 1#1)]) H1 H2).
Defined.

Lemma calculate_model_agreement_range_witness :
  (forall q, 0 <= q -> 0 <= unit_sqrt q) /\
  0 <= calculate_model_agreement unit_sqrt [mk_rec (PStr "restart_pod") (8#10) "rl_agent"; mk_rec (PStr "trigger_heal") (6#10) "gnn"] <= 1.
Proof.
  assert (H1 : (forall q, 0 <= q -> 0 <= unit_sqrt q)) by (intros q Hq; exact Hq).
  split; [exact H1|].
  exact (calculate_model_agreement_range unit_sqrt [mk_rec (PStr "restart_pod") (8#10) "rl_agent"; mk_rec (PStr "trigger_heal") (6#10) "gnn"] H1).
Defined.

Lemma archive_decision_get_witness :
  NoDup (map ae_decision_id (archives (mk_archive 2 [mk_entry "decision_0_1" 1 (mk_decision (Some (PStr "scale_up")) (Some [("target_replicas", PInt 5)]) None None None None None None None None) scenario_event None None] []))) /\
  (length (archives (mk_archive 2 [mk_entry "decision_0_1" 1 (mk_decision (Some (PStr "scale_up")) (Some [("target_replicas", PInt 5)]) None None None None None None None None) scenario_event None None] [])) <= max_size (mk_archive 2 [mk_entry "decision_0_1" 1 (mk_decision (Some (PStr "scale_up")) (Some [("target_replicas", PInt 5)]) None None None None None None None None) scenario_event None None] []))%nat /\
  ((1 <= max_size (mk_archive 2 [mk_entry "decision_0_1" 1 (mk_decision (Some (PStr "scale_up")) (Some [("target_replicas", PInt 5)]) None None None None None None None None) scenario_event None None] []))%nat ->
   (forall x, In x (archives (mk_archive 2 [mk_entry "decision_0_1" 1 (mk_decision (Some (PStr "scale_up")) (Some [("target_replicas", PInt 5)]) None None None None None None None None) scenario_event None None] [])) -> (ae_timestamp x <= 7)%Z) ->
   get_decision (archive_decision (mk_archive 2 [mk_entry "decision_0_1" 1 (mk_decision (Some (PStr "scale_up")) (Some [("target_replicas", PInt 5)]) None None None None None None None None) scenario_event None None] []) "decision_1_7" 7 (mk_decision (Some (PStr "scale_up")) (Some [("target_replicas", PInt 5)]) None None None None None None None None) scenario_event None None) "decision_1_7" = Some (mk_entry "decision_1_7" 7 (mk_decision (Some (PStr "scale_up")) (Some [("target_replicas", PInt 5)]) None None None None None None None None) scenario_event None None)) /\
  (length (archives (mk_archive 2 [mk_entry "decision_0_1" 1 (mk_decision (Some (PStr "scale_up")) (Some [("target_replicas", PInt 5)]) None None None None None None None None) scenario_event None None] [])) = max_size (mk_archive 2 [mk_entry "decision_0_1" 1 (mk_decision (Some (PStr "scale_up")) (Some [("target_replicas", PInt 5)]) None None None None None None None None) scenario_event None None] []) -> ~ In "decision_1_7" (map ae_decision_id (archives (mk_archive 2 [mk_entry "decision_0_1" 1 (mk_decision (Some (PStr "scale_up")) (Some [("target_replicas", PInt 5)]) None None None None None None None None) scenario_event None None] []))) ->
   (forall x, In x (archives (mk_archive 2 [mk_entry "decision_0_1" 1 (mk_decision (Some (PStr "scale_up")) (Some [("target_replicas", PInt 5)]) None None None None None None None None) scenario_event None None] [])) -> (7 < ae_timestamp x)%Z) ->
   get_decision (archive_decision (mk_archive 2 [mk_entry "decision_0_1" 1 (mk_decision (Some (PStr "scale_up")) (Some [("target_replicas", PInt 5)]) None None None None None None None None) scenario_event None None] []) "decision_1_7" 7 (mk_decision (Some (PStr "scale_up")) (Some [("target_replicas", PInt 5)]) None None None None None None None None) scenario_event None None) "decision_1_7" = None).
Proof.
  assert (H1 : NoDup (map ae_decision_id (archives (mk_archive 2 [mk_entry "decision_0_1" 1 (mk_decision (Some (PStr "scale_up")) (Some [("target_replicas", PInt 5)]) None None None None None None None None) scenario_event None None] [])))) by (constructor; [intros []|constructor]).
  assert (H2 : (length (archives (mk_archive 2 [mk_entry "decision_0_1" 1 (mk_decision (Some (PStr "scale_up")) (Some [("target_replicas", PInt 5)]) None None None None None None None None) scenario_event None None] [])) <= max_size (mk_archive 2 [mk_entry "decision_0_1" 1 (mk_decision (Some (PStr "scale_up")) (Some [("target_replicas", PInt 5)]) None None None None None None None None) scenario_event None None] []))%nat) by (cbn; lia).
  split; [exact H1|].
  split; [exact H2|].
  exact (archive_decision_get (mk_archive 2 [mk_entry "decision_0_1" 1 (mk_decision (Some (PStr "scale_up")) (Some [("target_replicas", PInt 5)]) None None None None None None None None) scenario_event None None] []) "decision_1_7" 7 (mk_decision (Some (PStr "scale_up")) (Some [("target_replicas", PInt 5)]) None None None None None None None None) scenario_event None None H1 H2).
Defined.

Lemma forecast_array_truth_raises_witness :
  i_transformers (mk_intel (Some (PStr "restart_pod", 8#10)) None None (Some (mk_forecast (Some [85; 90; 95; 92; 88]) (Some [0; 1; 0; 0; 1])))) = Some (mk_forecast (Some [85; 90; 95; 92; 88]) (Some [0; 1; 0; 0; 1])) /\
  ((exists c1 c2 cs, cpu_forecast (mk_forecast (Some [85; 90; 95; 92; 88]) (Some [0; 1; 0; 0; 1])) = Some (c1 :: c2 :: cs)) ->
     collect_recommendations (mk_intel (Some (PStr "restart_pod", 8#10)) None None (Some (mk_forecast (Some [85; 90; 95; 92; 88]) (Some [0; 1; 0; 0; 1])))) = Raise ValueError /\
     choose_best_action scenario_event (mk_intel (Some (PStr "restart_pod", 8#10)) None None (Some (mk_forecast (Some [85; 90; 95; 92; 88]) (Some [0; 1; 0; 0; 1])))) (route_event scenario_event) = Raise ValueError /\
     forall sqrt u o n1 n2 n3 emb,
       process_event sqrt u o scenario_event (mk_intel (Some (PStr "restart_pod", 8#10)) None None (Some (mk_forecast (Some [85; 90; 95; 92; 88]) (Some [0; 1; 0; 0; 1])))) n1 n2 n3 emb = Raise ValueError) /\
  ((exists e1 e2 es, error_burst (mk_forecast (Some [85; 90; 95; 92; 88]) (Some [0; 1; 0; 0; 1])) = Some (e1 :: e2 :: es)) ->
     calculate_risk_score scenario_event (mk_intel (Some (PStr "restart_pod", 8#10)) None None (Some (mk_forecast (Some [85; 90; 95; 92; 88]) (Some [0; 1; 0; 0; 1])))) = Raise ValueError /\
     forall r rs, collect_recommendations (mk_intel (Some (PStr "restart_pod", 8#10)) None None (Some (mk_forecast (Some [85; 90; 95; 92; 88]) (Some [0; 1; 0; 0; 1])))) = Ok (r :: rs) ->
       choose_best_action scenario_event (mk_intel (Some (PStr "restart_pod", 8#10)) None None (Some (mk_forecast (Some [85; 90; 95; 92; 88]) (Some [0; 1; 0; 0; 1])))) (route_event scenario_event) = Raise ValueError).
Proof.
  assert (H1 : i_transformers (mk_intel (Some (PStr "restart_pod", 8#10)) None None (Some (mk_forecast (Some [85; 90; 95; 92; 88]) (Some [0; 1; 0; 0; 1])))) = Some (mk_forecast (Some [85; 90; 95; 92; 88]) (Some [0; 1; 0; 0; 1]))) by (reflexivity).
  split; [exact H1|].
  exact (forecast_array_truth_raises scenario_event (mk_intel (Some (PStr "restart_pod", 8#10)) None None (Some (mk_forecast (Some [85; 90; 95; 92; 88]) (Some [0; 1; 0; 0; 1])))) (route_event scenario_event) (mk_forecast (Some [85; 90; 95; 92; 88]) (Some [0; 1; 0; 0; 1])) H1).
Defined.

Lemma process_event_effects_witness :
  exists r o',
  process_event unit_sqrt (fun _ : pdict => false) scenario_orchestrator scenario_event scenario_a_intel 1 2 3 [] = Ok (r, o') /\
  pr_event r = scenario_event /\ pr_routing r = route_event scenario_event /\
  pr_execution_result r
    = mk_execution (rt_target_agent (route_event scenario_event)) (d_action (pr_decision r)) "executed" 3 /\
  o_safety_layer o' = o_safety_layer scenario_orchestrator /\ o_component_history o' = o_component_history scenario_orchestrator /\
  pr_decision_id r
    = cat ["decision_"; z_str (Z.of_nat (length (archives (decision_archive (o_memory scenario_orchestrator)))));
           "_"; z_str 1] /\
  ((1 <= max_events (short_term (o_memory scenario_orchestrator)))%nat ->
     exists pre, recent_events (short_term (o_memory o')) = pre ++ [scenario_event]) /\
  ((1 <= max_decisions (short_term (o_memory scenario_orchestrator)))%nat ->
     exists pre, recent_decisions (short_term (o_memory o')) = pre ++ [pr_decision r]) /\
  (exists v, dget (pr_decision_id r) (decision_embeddings (long_term_embeddings (o_memory o')))
               = Some v /\ length v = embedding_dim (long_term_embeddings (o_memory scenario_orchestrator))) /\
  dget (pr_decision_id r) (embeddings_metadata (long_term_embeddings (o_memory o')))
    = Some (MDecision (pr_decision r) scenario_event) /\
  (NoDup (map ae_decision_id (archives (decision_archive (o_memory scenario_orchestrator)))) ->
   (length (archives (decision_archive (o_memory scenario_orchestrator))) <= max_size (decision_archive (o_memory scenario_orchestrator)))%nat ->
   (1 <= max_size (decision_archive (o_memory scenario_orchestrator)))%nat ->
   (forall x, In x (archives (decision_archive (o_memory scenario_orchestrator))) -> (ae_timestamp x <= 2)%Z) ->
   get_decision (decision_archive (o_memory o')) (pr_decision_id r)
     = Some (mk_entry (pr_decision_id r) 2 (pr_decision r) scenario_event None None)).
Proof.
  destruct (process_event unit_sqrt (fun _ : pdict => false) scenario_orchestrator scenario_event scenario_a_intel 1 2 3 []) as [[r o']|e] eqn:E.
  - exists r, o'. split; [reflexivity|].
    exact (process_event_effects unit_sqrt (fun _ : pdict => false) scenario_orchestrator scenario_event
             scenario_a_intel 1 2 3 [] r o' E).
  - vm_compute in E. discriminate.
Defined.
